(** * lrytas: the crawl loop of [scraper.py] and the title deduplication of
    [dataset_builder.py], embedded as Rocq functions.

    Python objects are modelled as follows.
    - A [str] is the list of its Unicode code points.
    - A sample (a [dict[str, str]]) is a finite map from keys to strings.
    - The [Scraper] object, the dataset file it owns and the sequence of
      effects performed so far (page loads, sleeps, writes, log lines) make
      up one [State] that every method threads through.
    - A raised exception ends the computation with [Raise e] and the state
      reached at the [raise]. *)

From Stdlib Require Import ZArith QArith List String Ascii Lia.
From stdpp Require Import base option list gmap sets strings.
From Equations Require Import Equations.

#[local] Open Scope Z_scope.

(** ** Python strings *)

Abbreviation pystr := (list N).

(** A literal of the source, as code points. *)
Definition py (s : string) : pystr :=
  N_of_ascii <$> list_ascii_of_string s.

(** [c.isspace()] for one code point, as CPython's [_PyUnicode_IsWhitespace]. *)
Definition isspace (c : N) : bool :=
  ((9 <=? c) && (c <=? 13) || (28 <=? c) && (c <=? 32)
   || (c =? 133) || (c =? 160) || (c =? 5760)
   || (8192 <=? c) && (c <=? 8202)
   || (c =? 8232) || (c =? 8233) || (c =? 8239) || (c =? 8287)
   || (c =? 12288))%N.

Fixpoint lstrip (s : pystr) : pystr :=
  match s with
  | c :: s' => if isspace c then lstrip s' else s
  | [] => []
  end.

Definition rstrip (s : pystr) : pystr := rev (lstrip (rev s)).

(** [s.strip()] *)
Definition strip (s : pystr) : pystr := rstrip (lstrip s).

(** Truth value of a [str]: false exactly for the empty string. *)
Definition truthy (s : pystr) : bool :=
  match s with [] => false | _ => true end.

(** ** Samples *)

Abbreviation Sample := (gmap (list N) (list N)).

Definition k_url : pystr := py "url".
Definition k_title : pystr := py "title".
Definition k_summary : pystr := py "summary".
Definition k_text : pystr := py "text".

(** [{"url": article_url, "title": title, "summary": summary, "text": text}] *)
Definition mk_sample (article_url title summary text : pystr) : Sample :=
  <[k_url := article_url]> (<[k_title := title]>
    (<[k_summary := summary]> (<[k_text := text]> ∅))).

(** [sample.get(key, "")] *)
Definition get_or_empty (key : pystr) (sample : Sample) : pystr :=
  default [] (sample !! key).

(** ** dataset_builder.py *)

Module DatasetBuilder.

(** The key the builder compares samples by:
    [sample.get("title", "").strip()]. *)
Definition title_of (sample : Sample) : pystr :=
  strip (get_or_empty k_title sample).

(** The [for] loop of [_ignore_duplicates], from the point where
    [seen_titles] and [unique_samples] hold the given values; the result is
    the final [unique_samples]. *)
Fixpoint ignore_loop (seen_titles : gset (list N)) (unique_samples : list Sample)
    (samples : list Sample) : list Sample :=
  match samples with
  | [] => unique_samples
  | sample :: rest =>
      let title := title_of sample in
      if truthy title && bool_decide (title ∉ seen_titles)
      then ignore_loop ({[title]} ∪ seen_titles) (unique_samples ++ [sample]) rest
      else ignore_loop seen_titles unique_samples rest
  end.

Definition _ignore_duplicates (samples : list Sample) : list Sample :=
  ignore_loop ∅ [] samples.

(** The two numbers of the log line: removed and kept. *)
Definition report (samples : list Sample) : Z * Z :=
  (Z.of_nat (length samples) - Z.of_nat (length (_ignore_duplicates samples)),
   Z.of_nat (length (_ignore_duplicates samples))).

(** Title deduplication as the specification words it: the sample at index
    [i] is kept exactly when its trimmed title is non-empty and no sample at
    an earlier index has the same trimmed title. *)
Definition first_occurrence (samples : list Sample) (i : nat) : option Sample :=
  sample ← samples !! i;
  if decide (title_of sample ≠ [] ∧ title_of sample ∉ title_of <$> take i samples)
  then Some sample else None.

Definition keep_first_titles (samples : list Sample) : list Sample :=
  omap (first_occurrence samples) (seq 0 (length samples)).

(** The loop invariant of [_ignore_duplicates]: [seen_titles] holds the
    non-empty trimmed titles of the samples read so far. *)
Definition titles_seen (seen : gset (list N)) (earlier : list Sample) : Prop :=
  ∀ t, t ≠ [] → t ∈ seen ↔ t ∈ title_of <$> earlier.

End DatasetBuilder.

(** ** scraper.py *)

Abbreviation Query := (list N).
Abbreviation Url := (list N).

(** What [random.uniform(lo, hi)] is asked for, in seconds. *)
Definition Range : Type := Q * Q.

Inductive LogLine :=
| LogLongSleepTrack                        (* "Long sleep (track)" *)
| LogLongSleepQuery                        (* "Long sleep (query)" *)
| LogDone (n : Z)                          (* "Done scraping {n} articles" *)
| LogClicked                               (* "Clicked the 'SUTINKU' button" *)
| LogClickFailed                           (* warning of [_click_cookie_button] *)
| LogMissing (article_url : Url)           (* "Missing text and/or summary ..." *)
| LogProgress (n max : Z).                 (* "Progress: {n}/{max} articles scraped" *)

(** The effects of a crawl, in the order they happen. *)
Inductive Event :=
| EvPop (query : Query)                    (* [self.words.pop()] returned [query] *)
| EvDriverGet (query : Query)              (* [self.driver.get(base_url.format(query))] *)
| EvCookieClick                            (* the attempt of [_click_cookie_button] *)
| EvSessionGet (article_url : Url)         (* [self.session.get(url=article_url)] *)
| EvSleep (range : Range)                  (* [time.sleep(random.uniform(lo, hi))] *)
| EvTouch                                  (* [self.dataset_path.touch()] *)
| EvAppend (sample : Sample)               (* [writer.write(sample)], mode "a" *)
| EvDriverQuit                             (* [self.driver.quit()] *)
| EvLog (line : LogLine).

#[export] Instance Q_eq_dec : EqDecision Q.
Proof. solve_decision. Defined.
#[export] Instance LogLine_eq_dec : EqDecision LogLine.
Proof. solve_decision. Defined.
#[export] Instance Event_eq_dec : EqDecision Event.
Proof. solve_decision. Defined.

(** What the three selectors of the scraper find in a parsed article page:
    [None] when [select_one] finds no element, otherwise the element's
    [get_text(separator=" ", strip=True)] (for the content, after the
    unwanted elements were removed). *)
Record Soup := mkSoup {
  sel_title : option pystr;
  sel_content : option pystr;
  sel_summary : option pystr;
}.

Record Response := mkResponse {
  status_code : Z;
  soup : Soup;
}.

(** The site and the libraries that read it. Each answer may depend on
    everything that happened before the request. *)
Record Web := mkWeb {
  (* the [href] of the [a] inside each [h3] of the rendered search page *)
  h3_links : list Event → Query → list pystr;
  (* [tldextract.extract(link).domain] *)
  tld_domain : pystr → pystr;
  (* the answer to [session.get(url)] *)
  http_get : list Event → Url → Response;
  (* whether the consent button became clickable *)
  cookie_button : list Event → bool;
}.

Inductive Exn :=
| IndexError                               (* pop from empty list *)
| ValueError                               (* "Driver is not initialized" *)
| KeyError (key : pystr)
| HTTPError (status : Z).

Inductive Result (A : Type) :=
| Ok (a : A)
| Raise (e : Exn).
Arguments Ok {A} a.
Arguments Raise {A} e.

(** The [Scraper] object with the file at [dataset_path] and the effects so
    far. [dataset_file = None] when the file does not exist. *)
Record State := mkState {
  driver : bool;                           (* [self.driver is not None] *)
  cookie_button_clicked : bool;
  debug : bool;
  max_articles : Z;
  dataset_length : Z;
  seen_urls : gset (list N);
  words : list Query;
  dataset_file : option (list Sample);
  trace : list Event;
}.

Definition set_driver (b : bool) (st : State) : State :=
  mkState b (cookie_button_clicked st) (debug st) (max_articles st)
    (dataset_length st) (seen_urls st) (words st) (dataset_file st) (trace st).
Definition set_cookie_button_clicked (b : bool) (st : State) : State :=
  mkState (driver st) b (debug st) (max_articles st)
    (dataset_length st) (seen_urls st) (words st) (dataset_file st) (trace st).
Definition set_dataset_length (n : Z) (st : State) : State :=
  mkState (driver st) (cookie_button_clicked st) (debug st) (max_articles st)
    n (seen_urls st) (words st) (dataset_file st) (trace st).
Definition set_seen_urls (s : gset (list N)) (st : State) : State :=
  mkState (driver st) (cookie_button_clicked st) (debug st) (max_articles st)
    (dataset_length st) s (words st) (dataset_file st) (trace st).
Definition set_words (ws : list Query) (st : State) : State :=
  mkState (driver st) (cookie_button_clicked st) (debug st) (max_articles st)
    (dataset_length st) (seen_urls st) ws (dataset_file st) (trace st).
Definition set_dataset_file (f : option (list Sample)) (st : State) : State :=
  mkState (driver st) (cookie_button_clicked st) (debug st) (max_articles st)
    (dataset_length st) (seen_urls st) (words st) f (trace st).
Definition set_trace (tr : list Event) (st : State) : State :=
  mkState (driver st) (cookie_button_clicked st) (debug st) (max_articles st)
    (dataset_length st) (seen_urls st) (words st) (dataset_file st) tr.

(** *** The monad of the methods: state and exceptions *)

Definition M (A : Type) : Type := State → Result A * State.

#[export] Instance M_ret : MRet M := λ A a st, (Ok a, st).
#[export] Instance M_bind : MBind M := λ A B f m st,
  match m st with
  | (Ok a, st') => f a st'
  | (Raise e, st') => (Raise e, st')
  end.

Definition raise {A} (e : Exn) : M A := λ st, (Raise e, st).
Definition get_state : M State := λ st, (Ok st, st).
Definition modify (f : State → State) : M unit := λ st, (Ok tt, f st).
Definition emit (ev : Event) : M unit :=
  modify (λ st, set_trace (trace st ++ [ev]) st).
Definition when (b : bool) (m : M unit) : M unit :=
  if b then m else mret tt.

(** [for x in xs: body(x)] *)
Fixpoint for_each {A} (xs : list A) (body : A → M unit) : M unit :=
  match xs with
  | [] => mret tt
  | x :: rest => body x;; for_each rest body
  end.

(** [l.pop()]: the last element and the list without it. *)
Definition pop {A} (l : list A) : option (A * list A) :=
  match last l with
  | Some x => Some (x, removelast l)
  | None => None
  end.

(** After [funelim]: drop the equations between [inspect] packages, which
    repeat the plain equations next to them. *)
Ltac funelim_tidy :=
  repeat match goal with
  | H : {| pr1 := _; pr2 := _ |} = _ |- _ => clear H
  end.

(** Run the monad's plumbing on the goal. *)
Ltac mrun :=
  unfold mbind, mret, M_bind, M_ret, get_state, modify, emit, raise; cbn.

Section Scraper.
Context (web : Web).

Definition short_range (debug : bool) : Range :=
  if debug then (0.1, 0.15)%Q else (30, 60)%Q.
Definition long_range (debug : bool) : Range :=
  if debug then (0.1, 0.15)%Q else (300, 420)%Q.

Definition _short_sleep : M unit :=
  st ← get_state; emit (EvSleep (short_range (debug st))).

Definition _long_sleep : M unit :=
  st ← get_state; emit (EvSleep (long_range (debug st))).

(** The [try] swallows every exception of the wait and the click. *)
Definition _click_cookie_button : M unit :=
  emit EvCookieClick;;
  st ← get_state;
  if cookie_button web (trace st)
  then emit (EvLog LogClicked)
  else emit (EvLog LogClickFailed).

Definition site_prefix : pystr := py "https://www.lrytas.lt".
Definition site_domain : pystr := py "lrytas".

(** The body of the [for h3] loop for one link. *)
Definition article_url_of (link : pystr) : Url :=
  if bool_decide (tld_domain web link ≠ site_domain)
  then site_prefix ++ link
  else link.

Definition _get_article_urls (query : Query) : M (list Url) :=
  st ← get_state;
  if negb (driver st) then raise ValueError else
  emit (EvDriverGet query);;
  _short_sleep;;
  st ← get_state;
  when (negb (cookie_button_clicked st))
    (_click_cookie_button;; modify (set_cookie_button_clicked true));;
  st ← get_state;
  mret (article_url_of <$> h3_links web (trace st) query).

Definition _get_title (page : Soup) : pystr := default [] (sel_title page).
Definition _get_summary (page : Soup) : pystr := default [] (sel_summary page).
Definition _get_text (page : Soup) : pystr := default [] (sel_content page).

(** The statuses for which [response.raise_for_status()] raises: client
    and server errors. *)
Definition is_http_error (response : Response) : bool :=
  (400 <=? status_code response) && (status_code response <? 600).

Definition raise_for_status (response : Response) : M unit :=
  if is_http_error response
  then raise (HTTPError (status_code response))
  else mret tt.

Definition _get_article_data (article_url : Url) : M (option Sample) :=
  _short_sleep;;
  st ← get_state;
  let response := http_get web (trace st) article_url in
  emit (EvSessionGet article_url);;
  raise_for_status response;;
  let title := _get_title (soup response) in
  let text := _get_text (soup response) in
  let summary := _get_summary (soup response) in
  if negb (truthy text) || negb (truthy summary)
  then emit (EvLog (LogMissing article_url));; mret None
  else mret (Some (mk_sample article_url title summary text)).

(** [sample[key]] *)
Definition getitem (sample : Sample) (key : pystr) : M pystr :=
  match sample !! key with
  | Some v => mret v
  | None => raise (KeyError key)
  end.

Definition _save_sample (sample : Sample) : M unit :=
  st ← get_state;
  when (negb (bool_decide (is_Some (dataset_file st))))
    (emit EvTouch;; modify (set_dataset_file (Some [])));;
  emit (EvAppend sample);;
  modify (λ st, set_dataset_file (Some (default [] (dataset_file st) ++ [sample])) st);;
  url ← getitem sample k_url;
  modify (λ st, set_seen_urls ({[url]} ∪ seen_urls st) st);;
  modify (λ st, set_dataset_length (dataset_length st + 1) st);;
  st ← get_state;
  when (dataset_length st mod 10 =? 0)
    (emit (EvLog (LogProgress (dataset_length st) (max_articles st)))).

(** The body of the loop of [_get_dataset_info]. *)
Definition note_record (sample : Sample) : M unit :=
  url ← getitem sample k_url;
  modify (λ st, set_seen_urls ({[url]} ∪ seen_urls st) st);;
  modify (λ st, set_dataset_length (dataset_length st + 1) st).

Definition _get_dataset_info : M unit :=
  st ← get_state;
  match dataset_file st with
  | None => mret tt
  | Some records => for_each records note_record
  end.

(** A dict is true when it has a key; [None] is false. *)
Definition sample_truthy (sample : option Sample) : bool :=
  match sample with
  | Some d => negb (bool_decide (d = ∅))
  | None => false
  end.

(** The body of the [for article_url] loop of [_scrape]. *)
Definition scrape_article (article_url : Url) : M unit :=
  st ← get_state;
  if bool_decide (article_url ∈ seen_urls st) then mret tt else
  sample ← _get_article_data article_url;
  match sample with
  | Some d => when (sample_truthy sample) (_save_sample d)
  | None => mret tt
  end.

Definition _scrape (query : Query) : M bool :=
  article_urls ← _get_article_urls query;
  match article_urls with
  | [] => mret false
  | _ => for_each article_urls scrape_article;; mret true
  end.

(** [self.words.pop()] *)
Definition words_pop : M Query :=
  st ← get_state;
  match pop (words st) with
  | None => raise IndexError
  | Some (query, rest) =>
      modify (set_words rest);; emit (EvPop query);; mret query
  end.

(** *** Termination of [scrape]

    Each round of either [while] of [scrape] pops a word and nothing puts
    one back, so the length of [self.words] bounds the rounds. *)

(** [m] never touches [self.words]. *)
Definition keeps_words {A} (m : M A) : Prop :=
  ∀ st, words (m st).2 = words st.

Lemma keeps_words_bind {A B} (m : M A) (f : A → M B) :
  keeps_words m → (∀ a, keeps_words (f a)) → keeps_words (m ≫= f).
Proof.
  intros Hm Hf st. mrun. specialize (Hm st).
  destruct (m st) as [[a|e] st1]; cbn in *; [|done].
  by rewrite Hf.
Qed.

Lemma keeps_words_for_each {A} (xs : list A) (body : A → M unit) :
  (∀ x, keeps_words (body x)) → keeps_words (for_each xs body).
Proof.
  intros Hb. induction xs as [|x xs IH]; [done|].
  apply keeps_words_bind; auto.
Qed.

Ltac keeps_words :=
  repeat first
    [ apply keeps_words_bind; [|intros ?]
    | apply keeps_words_for_each; intros ?
    | progress unfold when, _short_sleep, _long_sleep, _click_cookie_button,
        raise_for_status, getitem, emit
    | match goal with
      | |- keeps_words (if ?b then _ else _) => destruct b
      | |- keeps_words (match ?x with _ => _ end) => destruct x
      end
    | done ].

Lemma _scrape_keeps_words query : keeps_words (_scrape query).
Proof.
  unfold _scrape, scrape_article, _get_article_urls, _get_article_data,
    _save_sample.
  keeps_words.
Qed.

Lemma words_pop_shrinks st query st' :
  words_pop st = (Ok query, st') →
  (length (words st') < length (words st))%nat.
Proof.
  unfold words_pop, pop. mrun.
  destruct (last (words st)) as [x|] eqn:Hl; mrun; [|done].
  intros [= _ <-]. cbn.
  destruct (words st) as [|w ws _] using rev_ind; [done|].
  rewrite removelast_last, length_app. cbn. lia.
Qed.

Definition inspect {A} (a : A) : {b : A | a = b} := exist _ a eq_refl.

(** The inner [while not self._scrape(query=query)], entered with [query]. *)
Equations? scrape_retry (query : Query) (st : State) : Result unit * State
    by wf (length (words st)) lt :=
  scrape_retry query st with inspect (_scrape query st) := {
    | exist _ (Raise e, st1) H1 := (Raise e, st1)
    | exist _ (Ok true, st1) H1 := (Ok tt, st1)
    | exist _ (Ok false, st1) H1
        with inspect ((emit (EvLog LogLongSleepQuery);; _long_sleep;; words_pop) st1) := {
        | exist _ (Raise e, st2) H2 := (Raise e, st2)
        | exist _ (Ok query', st2) H2 := scrape_retry query' st2 } }.
Proof.
  pose proof (_scrape_keeps_words query st) as Hw. rewrite H1 in Hw. cbn in Hw.
  rewrite <- Hw. clear -H2. revert H2. unfold _long_sleep. mrun.
  intros H2%words_pop_shrinks. exact H2.
Qed.

Lemma retry_pop_shrinks st1 query' st2 :
  (emit (EvLog LogLongSleepQuery);; _long_sleep;; words_pop) st1 = (Ok query', st2) →
  (length (words st2) < length (words st1))%nat.
Proof. unfold _long_sleep. mrun. by intros ?%words_pop_shrinks. Qed.

Lemma scrape_retry_words query st :
  (length (words (scrape_retry query st).2) ≤ length (words st))%nat.
Proof.
  funelim (scrape_retry query st); funelim_tidy; cbn;
    pose proof (_scrape_keeps_words query st) as Hw;
    rewrite H1 in Hw; cbn in Hw; rewrite <- Hw.
  - done.
  - done.
  - apply retry_pop_shrinks in H2. lia.
  - revert H2. unfold _long_sleep, words_pop. mrun.
    destruct (pop (words st1)) as [[q r]|]; mrun; [done|]. by intros [= _ <-].
Qed.

(** Lines 79 to 84: the batch cooldown and the pop that open a round of the
    outer [while]; the result is the new [track] and the query. *)
Definition round_head (track : Z) : M (Z * Query) :=
  st ← get_state;
  track' ← (if dataset_length st - track >? 25
            then emit (EvLog LogLongSleepTrack);; _long_sleep;;
                 st ← get_state; mret (dataset_length st)
            else mret track);
  query ← words_pop;
  mret (track', query).

(** The outer [while self.dataset_length < self.max_articles]. *)
Equations? scrape_rounds (track : Z) (st : State) : Result unit * State
    by wf (length (words st)) lt :=
  scrape_rounds track st with dataset_length st <? max_articles st := {
    | false := (Ok tt, st)
    | true with inspect (round_head track st) := {
        | exist _ (Raise e, st1) H1 := (Raise e, st1)
        | exist _ (Ok (track', query), st1) H1
            with inspect (scrape_retry query st1) := {
            | exist _ (Raise e, st2) H2 := (Raise e, st2)
            | exist _ (Ok tt, st2) H2 := scrape_rounds track' st2 } } }.
Proof.
  pose proof (scrape_retry_words query st1) as Hw. rewrite H2 in Hw. cbn in Hw.
  eapply Nat.le_lt_trans; [exact Hw|]. clear -H1. revert H1.
  unfold round_head, _long_sleep. mrun.
  destruct (dataset_length st - track >? 25); mrun.
  - destruct (words_pop _) as [[q|e] st'] eqn:Hp; [|done].
    apply words_pop_shrinks in Hp. by intros [= _ _ <-].
  - destruct (words_pop _) as [[q|e] st'] eqn:Hp; [|done].
    apply words_pop_shrinks in Hp. by intros [= _ _ <-].
Qed.

Definition scrape : M unit :=
  st ← get_state;
  let track := dataset_length st in
  scrape_rounds track;;
  st ← get_state;
  emit (EvLog (LogDone (dataset_length st))).

(** [Scraper(dataset_path, max_articles, headless, debug)], where
    [dataset_path] holds [file] and [shuffled] is what
    [random.shuffle] left of [top_n_list("lt", 1000)]. *)
Definition __init__ (file : option (list Sample)) (max_articles : Z)
    (debug : bool) (shuffled : list Query) : Result unit * State :=
  (_get_dataset_info;; modify (set_words shuffled))
    (mkState false false debug max_articles 0 ∅ [] file []).

Definition __enter__ : M unit := modify (set_driver true).
Definition __exit__ : M unit :=
  st ← get_state; when (driver st) (emit EvDriverQuit).

(** [main] of scripts/scrape.py: the [with] block runs [__exit__] whether
    [scrape] returns or raises, and lets the exception through. *)
Definition main (file : option (list Sample)) (max_articles : Z)
    (debug : bool) (shuffled : list Query) : Result unit * State :=
  match __init__ file max_articles debug shuffled with
  | (Raise e, st) => (Raise e, st)
  | (Ok _, st) =>
      match (__enter__;; scrape) st with
      | (r, st') => (r, (__exit__ st').2)
      end
  end.

End Scraper.

(** ** What a trace and a file show *)

Definition has_url (sample : Sample) : Prop := is_Some (sample !! k_url).

(** The ["url"] fields of a sequence of records. *)
Definition urls_of (records : list Sample) : list Url :=
  omap (λ sample : Sample, sample !! k_url) records.

(** The records written, the queries drawn and the articles requested
    during a trace, in order. *)
Definition appended (tr : list Event) : list Sample :=
  omap (λ ev, match ev with EvAppend sample => Some sample | _ => None end) tr.
Definition popped (tr : list Event) : list Query :=
  omap (λ ev, match ev with EvPop query => Some query | _ => None end) tr.
Definition fetched (tr : list Event) : list Url :=
  omap (λ ev, match ev with EvSessionGet u => Some u | _ => None end) tr.

(** The records of the dataset file; none when the file is absent. *)
Definition records_of (st : State) : list Sample :=
  default [] (dataset_file st).

(** *** Monitors

    A monitor reads a trace event by event, from a state of its own; it
    stops with [None] at the first event it forbids. *)
Fixpoint monitor {S} (step : S → Event → option S) (s : S)
    (tr : list Event) : option S :=
  match tr with
  | [] => Some s
  | ev :: rest =>
      match step s ev with
      | Some s' => monitor step s' rest
      | None => None
      end
  end.

(** No request for an article whose url is in the seen set, no record
    written for such a url; the state is the seen set, which every record
    written extends by its url. *)
Definition polite_step (seen : gset (list N)) (ev : Event)
    : option (gset (list N)) :=
  match ev with
  | EvSessionGet u => if bool_decide (u ∈ seen) then None else Some seen
  | EvAppend sample =>
      match sample !! k_url with
      | Some u => if bool_decide (u ∈ seen) then None else Some ({[u]} ∪ seen)
      | None => None
      end
  | _ => Some seen
  end.

Definition is_short_sleep (dbg : bool) (ev : Event) : bool :=
  match ev with
  | EvSleep range => bool_decide (range = short_range dbg)
  | _ => false
  end.

Definition is_long_sleep (dbg : bool) (ev : Event) : bool :=
  match ev with
  | EvSleep range => bool_decide (range = long_range dbg)
  | _ => false
  end.

(** The event right after a search-page load is a short sleep, the event
    right after the log line of a long sleep is that long sleep, and the
    event right before an article request is a short sleep; the state is
    the previous event. *)
Definition paced_step (dbg : bool) (prev : option Event) (ev : Event)
    : option (option Event) :=
  match prev, ev with
  | Some (EvDriverGet _), _ =>
      if is_short_sleep dbg ev then Some (Some ev) else None
  | Some (EvLog LogLongSleepTrack), _ | Some (EvLog LogLongSleepQuery), _ =>
      if is_long_sleep dbg ev then Some (Some ev) else None
  | Some p, EvSessionGet _ =>
      if is_short_sleep dbg p then Some (Some ev) else None
  | None, EvSessionGet _ => None
  | _, _ => Some (Some ev)
  end.

(** The events that [paced_step] wants a sleep after. *)
Definition awaits_sleep (ev : option Event) : bool :=
  match ev with
  | Some (EvDriverGet _) | Some (EvLog LogLongSleepTrack)
  | Some (EvLog LogLongSleepQuery) => true
  | _ => false
  end.

Definition paced (dbg : bool) (tr : list Event) : Prop :=
  ∃ last, monitor (paced_step dbg) None tr = Some last
          ∧ awaits_sleep last = false.

(** The example of the specification for title deduplication. *)
Definition dedup_example_input : list Sample :=
  [ {[ k_url := py "a"; k_title := py "X" ]};
    {[ k_url := py "b"; k_title := py "X" ]};
    {[ k_url := py "c"; k_title := py "" ]};
    {[ k_url := py "d"; k_title := py "Y" ]} ].
Definition dedup_example_output : list Sample :=
  [ {[ k_url := py "a"; k_title := py "X" ]};
    {[ k_url := py "d"; k_title := py "Y" ]} ].

(** The count and the seen set agree with the dataset file, and every
    record of the file has a url. *)
Definition consistent (st : State) : Prop :=
  dataset_length st = Z.of_nat (length (records_of st))
  ∧ seen_urls st = list_to_set (urls_of (records_of st))
  ∧ Forall has_url (records_of st).

(** ** Small sites and pools for examples *)

Definition article_page : Soup :=
  mkSoup (Some (py "Title")) (Some (py "Body text")) (Some (py "Lead")).

(** Every query finds one article of its own; every article is complete. *)
Definition one_per_query : Web :=
  mkWeb (λ _ query, [py "/" ++ query]) (λ _, [])
        (λ _ _, mkResponse 200 article_page) (λ _, true).


(** Every article is answered with status 500. *)
Definition failing_site : Web :=
  mkWeb (λ _ query, [py "/" ++ query]) (λ _, [])
        (λ _ _, mkResponse 500 article_page) (λ _, true).

(** Articles with text and summary but no title element. *)
Definition untitled_site : Web :=
  mkWeb (λ _ query, [py "/" ++ query]) (λ _, [])
        (λ _ _, mkResponse 200
                  (mkSoup None (Some (py "Body text")) (Some (py "Lead"))))
        (λ _, true).

(** [n] different words. *)
Definition numbered_words (n : nat) : list Query :=
  (λ i, [N.of_nat i]) <$> seq 0 n.

(** The scraper right after [__init__] without a dataset file and
    [__enter__]. *)
Definition entered (max_articles : Z) (debug : bool) (pool : list Query)
    : State :=
  mkState true false debug max_articles 0 ∅ pool None [].

(** The scraper constructed over a file that holds the four records of the
    deduplication example, after [__enter__]. *)
Definition resumed (max_articles : Z) (debug : bool) (pool : list Query)
    : State :=
  (__enter__ (__init__ (Some dedup_example_input) max_articles debug pool).2).2.

(** The events of [scrape] on an entered scraper. *)
Definition crawl (web : Web) (max_articles : Z) (debug : bool)
    (pool : list Query) : list Event :=
  trace (scrape web (entered max_articles debug pool)).2.

(** ** The specification's sentences that the code does not follow *)




(** "An error status is treated like a query without results: long
    backoff, then the next query." *)
Definition fault_backs_off (web : Web) (dbg : bool) (tr : list Event) : Prop :=
  ∀ pre u post, tr = pre ++ EvSessionGet u :: post →
    is_http_error (http_get web pre u) = true →
    ∃ query post',
      post = EvLog LogLongSleepQuery :: EvSleep (long_range dbg)
             :: EvPop query :: post'.

(** ** The effects of the methods, written out *)

(** [st] after the effects [evs]. *)
Definition with_events (evs : list Event) (st : State) : State :=
  set_trace (trace st ++ evs) st.

Ltac setters :=
  unfold with_events, set_driver, set_cookie_button_clicked,
    set_dataset_length, set_seen_urls, set_words, set_dataset_file,
    set_trace; cbn.

Section Effects.
Context (web : Web).

(** The events of [_get_article_urls] when the driver is there. *)
Definition search_events (query : Query) (st : State) : list Event :=
  [EvDriverGet query; EvSleep (short_range (debug st))] ++
  if cookie_button_clicked st then []
  else [EvCookieClick;
        EvLog (if cookie_button web
                    (trace st ++ [EvDriverGet query;
                                  EvSleep (short_range (debug st));
                                  EvCookieClick])
               then LogClicked else LogClickFailed)].

(** What [_get_article_data] makes of an answer: the sample, or [None]
    when text or summary is missing. *)
Definition sample_of (article_url : Url) (page : Soup) : option Sample :=
  if negb (truthy (_get_text page)) || negb (truthy (_get_summary page))
  then None
  else Some (mk_sample article_url (_get_title page) (_get_summary page)
               (_get_text page)).

(** The request of [_get_article_data] and the answer it gets. *)
Definition request_events (article_url : Url) (st : State) : list Event :=
  [EvSleep (short_range (debug st)); EvSessionGet article_url].
Definition answer (article_url : Url) (st : State) : Response :=
  http_get web (trace st ++ [EvSleep (short_range (debug st))]) article_url.

(** The events of [_save_sample]. *)
Definition save_events (sample : Sample) (st : State) : list Event :=
  match dataset_file st with Some _ => [] | None => [EvTouch] end ++
  [EvAppend sample] ++
  (if (dataset_length st + 1) mod 10 =? 0
   then [EvLog (LogProgress (dataset_length st + 1) (max_articles st))]
   else []).

(** The state after [_save_sample] wrote a sample whose url is [u]. *)
Definition saved (sample : Sample) (u : Url) (st : State) : State :=
  with_events (save_events sample st)
    (set_dataset_length (dataset_length st + 1)
       (set_seen_urls ({[u]} ∪ seen_urls st)
          (set_dataset_file (Some (records_of st ++ [sample])) st))).

End Effects.

(** ** Relations that every step of a method keeps

    A relation between the state before, the exception raised if any, and
    the state after. It is sequential when doing nothing satisfies it and
    when it survives running a second step after a first that returned. *)

Definition outcome {A} (r : Result A) : option Exn :=
  match r with Ok _ => None | Raise e => Some e end.

Definition Rel : Type := State → option Exn → State → Prop.

Class Sequential (R : Rel) : Prop := {
  seq_refl st : R st None st;
  seq_trans st st1 o st2 : R st None st1 → R st1 o st2 → R st o st2;
}.

Definition sat (R : Rel) {A} (m : M A) : Prop :=
  ∀ st, R st (outcome (m st).1) (m st).2.

(** ** What the steps of the crawl keep *)

(** Events that neither load a page, write a record nor draw a query. *)
Definition quiet (ev : Event) : Prop :=
  match ev with
  | EvLog LogLongSleepTrack | EvLog LogLongSleepQuery => False
  | EvSleep _ | EvCookieClick | EvTouch | EvDriverQuit | EvLog _ => True
  | _ => False
  end.

(** [st'] is [st] after the events [new]: the trace grew by them, the
    settings did not change, the seen set, the file and the count grew by
    the records written, the pool lost the queries drawn, and the pages
    were loaded at the pace of [paced]. *)
Record advances (st : State) (new : list Event) (st' : State) : Prop := {
  adv_trace : trace st' = trace st ++ new;
  adv_max : max_articles st' = max_articles st;
  adv_debug : debug st' = debug st;
  adv_driver : driver st' = driver st;
  adv_seen : monitor polite_step (seen_urls st) new = Some (seen_urls st');
  adv_file : records_of st' = records_of st ++ appended new;
  adv_length :
    dataset_length st' = dataset_length st + Z.of_nat (length (appended new));
  adv_words : words st = words st' ++ reverse (popped new);
  adv_paced : paced (debug st) new;
}.

Definition Adv : Rel := λ st _ st', ∃ new, advances st new st'.

Definition inner_event (ev : Event) : Prop :=
  match ev with
  | EvPop _ | EvLog LogLongSleepTrack | EvLog LogLongSleepQuery => False
  | _ => True
  end.

Definition Inner : Rel := λ st o st',
  o ≠ Some IndexError
  ∧ ∃ new, trace st' = trace st ++ new ∧ Forall inner_event new.

(** [IndexError] is raised only when the pool is empty. *)
Definition Exhausted : Rel := λ _ o st', o = Some IndexError → words st' = [].

(** ** The discipline of the two loops of [scrape] *)

(** A query is drawn only while the count is below [max_articles]; the
    state is the count, which every record written raises by one. *)
Definition quota_step (max : Z) (count : Z) (ev : Event) : option Z :=
  match ev with
  | EvPop _ => if count <? max then Some count else None
  | EvAppend _ => Some (count + 1)
  | _ => Some count
  end.

(** The batch cooldown. The state is the number of records written since
    the last batch cooldown (or the start), and whether the next draw is
    the retry after a query without results. A batch cooldown needs more
    than 25 records; a draw that is not a retry needs at most 25, since
    with more the cooldown comes first. *)
Definition cooldown_step (s : Z * bool) (ev : Event) : option (Z * bool) :=
  let '(batch, retry) := s in
  match ev with
  | EvAppend _ => Some (batch + 1, retry)
  | EvLog LogLongSleepTrack => if 25 <? batch then Some (0, retry) else None
  | EvLog LogLongSleepQuery => Some (batch, true)
  | EvPop _ => if retry || (batch <=? 25) then Some (batch, false) else None
  | _ => Some (batch, retry)
  end.

(** What one run of a loop of [scrape] does, beyond [advances]: queries
    are drawn below the quota, the batch cooldown keeps its discipline from
    a batch of [batch] records to one of [batch'], and the pool is found
    empty only below the quota. *)
Record disciplined (st : State) (batch : Z) (new : list Event)
    (r : Result unit) (st' : State) (batch' : Z) : Prop := {
  dis_adv : advances st new st';
  dis_quota :
    monitor (quota_step (max_articles st)) (dataset_length st) new
    = Some (dataset_length st');
  dis_cooldown :
    ∃ retry, monitor cooldown_step (batch, false) new = Some (batch', retry)
             ∧ (r = Ok tt → retry = false);
  dis_exhausted :
    r = Raise IndexError → dataset_length st' < max_articles st;
}.

(** ** Article requests answered with an error status *)

(** The requests of [new] that were answered with an error status, with
    the status; [hist] is the trace before [new]. *)
Fixpoint faults (web : Web) (hist new : list Event) : list (Url * Z) :=
  match new with
  | [] => []
  | ev :: rest =>
      match ev with
      | EvSessionGet u =>
          if is_http_error (http_get web hist u)
          then [(u, status_code (http_get web hist u))] else []
      | _ => []
      end ++ faults web (hist ++ [ev]) rest
  end.

(** An error status ends the method at that request, with [HTTPError];
    nothing else raises [HTTPError]. *)
Definition Faulted (web : Web) : Rel := λ st o st',
  ∃ new, trace st' = trace st ++ new ∧
    match o with
    | Some (HTTPError c) =>
        ∃ pre u, new = pre ++ [EvSessionGet u]
          ∧ faults web (trace st) pre = []
          ∧ is_http_error (http_get web (trace st ++ pre) u) = true
          ∧ c = status_code (http_get web (trace st ++ pre) u)
    | _ => faults web (trace st) new = []
    end.

Definition no_fetch (ev : Event) : Prop :=
  match ev with EvSessionGet _ => False | _ => True end.

(** On such a site every query of [pool] finds exactly one article, a
    different one for each query, and the article is never answered with
    an error status and always has text and summary. *)
Record one_new_per_query (web : Web) (pool : list Query)
    (url_of : Query → Url) : Prop := {
  one_url : ∀ hist q, q ∈ pool →
    article_url_of web <$> h3_links web hist q = [url_of q];
  one_inj : ∀ q1 q2, q1 ∈ pool → q2 ∈ pool → url_of q1 = url_of q2 → q1 = q2;
  one_valid : ∀ hist q, q ∈ pool →
    is_http_error (http_get web hist (url_of q)) = false
    ∧ is_Some (sample_of (url_of q) (soup (http_get web hist (url_of q))));
}.

(** ** More of [dataset_builder.py] and [scraper.py] *)

(** A string of whitespace only, as [str.strip] sees it. *)
Definition blank (s : pystr) : Prop := Forall (λ c, isspace c = true) s.

(** *** [DatasetBuilder.build_dataset] *)

Module Builder.
Import DatasetBuilder.

Inductive Exn :=
| FileNotFoundError                        (* [jsonlines.open] of a missing file *)
| HubError (message : pystr).              (* whatever [push_to_hub] raises *)

(** The effects of [build_dataset], in the order they happen. *)
Inductive Event :=
| EvRead                                   (* [jsonlines.open(raw_dataset_path, "r")] *)
| EvLog (removed kept : Z)                 (* "Removed {} duplicates. Kept {} ..." *)
| EvPush (repo : pystr) (private : bool)
         (splits : list (pystr * list Sample)).
                      (* [DatasetDict(splits).push_to_hub(repo, private=private)] *)

(** The hub: the exception [push_to_hub] ends with, if any. *)
Record Hub := mkHub {
  push_error : list (pystr * list Sample) → option pystr;
}.

Definition repo_id : pystr := py "alexandrainst/lrytas-summarization".
Definition train : pystr := py "train".

(** [raw] is the content of the file at [raw_dataset_path], [None] when
    there is no such file. *)
Definition _read_raw_dataset (raw : option (list Sample))
    : Exn + list Sample :=
  match raw with
  | Some records => inr records
  | None => inl FileNotFoundError
  end.

(** The result is the exception raised, if any, and the effects. *)
Definition build_dataset (hub : Hub) (raw : option (list Sample))
    (push_to_hub : bool) : option Exn * list Event :=
  match _read_raw_dataset raw with
  | inl e => (Some e, [EvRead])
  | inr samples =>
      let unique := _ignore_duplicates samples in
      let log := EvLog (fst (report samples)) (snd (report samples)) in
      if push_to_hub
      then let splits := [(train, unique)] in
           (HubError <$> push_error hub splits,
            [EvRead; log; EvPush repo_id true splits])
      else (None, [EvRead; log])
  end.

(** The sample lists handed to the hub during [evs]. *)
Definition pushed (evs : list Event) : list (list Sample) :=
  mjoin (omap (λ ev, match ev with
                    | EvPush _ _ splits => Some (snd <$> splits)
                    | _ => None
                    end) evs).

End Builder.

(** *** The steps a crawl is made of

    Every run of [scrape] is a sequence of the steps below; a sequential
    relation that holds for each of them holds for the run. *)
Record atomic (web : Web) (R : Rel) : Prop := {
  (* [_get_article_urls] with a driver: the search page is loaded *)
  at_search query st :
    driver st = true →
    R st None (set_cookie_button_clicked true
                 (with_events (search_events web query st) st));
  (* [_get_article_urls] without a driver *)
  at_no_driver st : driver st = false → R st (Some ValueError) st;
  (* [_get_article_data] for a listed url, answered with an error status *)
  at_fault link st :
    article_url_of web link ∉ seen_urls st →
    is_http_error (answer web (article_url_of web link) st) = true →
    R st (Some (HTTPError
                  (status_code (answer web (article_url_of web link) st))))
      (with_events (request_events (article_url_of web link) st) st);
  (* ... answered with a page without text or summary *)
  at_missing link st :
    article_url_of web link ∉ seen_urls st →
    is_http_error (answer web (article_url_of web link) st) = false →
    sample_of (article_url_of web link)
      (soup (answer web (article_url_of web link) st)) = None →
    R st None
      (with_events (request_events (article_url_of web link) st ++
                    [EvLog (LogMissing (article_url_of web link))]) st);
  (* ... answered with an article, which [_save_sample] writes *)
  at_saved link sample st :
    article_url_of web link ∉ seen_urls st →
    is_http_error (answer web (article_url_of web link) st) = false →
    sample_of (article_url_of web link)
      (soup (answer web (article_url_of web link) st)) = Some sample →
    R st None
      (saved sample (article_url_of web link)
         (with_events (request_events (article_url_of web link) st) st));
  (* a long sleep with its log line *)
  at_long_sleep line st :
    line = LogLongSleepTrack ∨ line = LogLongSleepQuery →
    R st None (with_events [EvLog line; EvSleep (long_range (debug st))] st);
  (* [self.words.pop()] *)
  at_pop query rest st :
    words st = rest ++ [query] →
    R st None (with_events [EvPop query] (set_words rest st));
  at_empty st : words st = [] → R st (Some IndexError) st;
  (* the last line of [scrape] *)
  at_done st :
    R st None (with_events [EvLog (LogDone (dataset_length st))] st);
}.

(** *** Things done once

    A flag of the scraper that the first [trigger] event sets, and an
    [action] that goes with setting it: the flag is set after [new] when
    it was set before or [new] has a trigger, and [new] has one action
    when it set the flag and none otherwise. *)
Definition Latch (flag : State → bool) (trigger action : Event → bool)
    : Rel := λ st _ st',
  ∃ new, trace st' = trace st ++ new
    ∧ flag st' = flag st || existsb trigger new
    ∧ length (List.filter action new)
      = if flag st || negb (existsb trigger new) then 0%nat else 1%nat.

Definition is_search (ev : Event) : bool :=
  match ev with EvDriverGet _ => true | _ => false end.
Definition is_click (ev : Event) : bool :=
  match ev with EvCookieClick => true | _ => false end.
Definition is_append (ev : Event) : bool :=
  match ev with EvAppend _ => true | _ => false end.
Definition is_touch (ev : Event) : bool :=
  match ev with EvTouch => true | _ => false end.

(** [self.dataset_path.exists()] *)
Definition file_exists (st : State) : bool :=
  match dataset_file st with Some _ => true | None => false end.

(** *** The progress lines of [_save_sample] *)

(** The two numbers of every "Progress" line of a trace. *)
Definition progress_lines (tr : list Event) : list (Z * Z) :=
  omap (λ ev, match ev with
              | EvLog (LogProgress n max) => Some (n, max)
              | _ => None
              end) tr.

(** One line for every multiple of ten above [count] and up to [count']. *)
Definition tens_between (count count' max : Z) : list (Z * Z) :=
  (λ k, (10 * k, max)) <$> seqZ (count / 10 + 1) (count' / 10 - count / 10).

Definition Progress : Rel := λ st _ st',
  ∃ new, trace st' = trace st ++ new
    ∧ max_articles st' = max_articles st
    ∧ dataset_length st ≤ dataset_length st'
    ∧ progress_lines new
      = tens_between (dataset_length st) (dataset_length st') (max_articles st).

(** *** Sleeps and what they are for *)

(** The ranges of the sleeps of a trace, in order. *)
Definition sleeps (tr : list Event) : list Range :=
  omap (λ ev, match ev with EvSleep range => Some range | _ => None end) tr.

(** The sleep that goes with an event: a short one with every page
    loaded, a long one with every log line of a long sleep. *)
Definition owed (dbg : bool) (ev : Event) : list Range :=
  match ev with
  | EvDriverGet _ | EvSessionGet _ => [short_range dbg]
  | EvLog LogLongSleepTrack | EvLog LogLongSleepQuery => [long_range dbg]
  | _ => []
  end.

Definition searched (tr : list Event) : list Query :=
  omap (λ ev, match ev with EvDriverGet q => Some q | _ => None end) tr.

(** The log lines of long sleeps in a trace. *)
Definition announced (tr : list Event) : list LogLine :=
  omap (λ ev, match ev with
              | EvLog LogLongSleepTrack => Some LogLongSleepTrack
              | EvLog LogLongSleepQuery => Some LogLongSleepQuery
              | _ => None
              end) tr.

(** The least number of seconds that sleeps from these ranges take. *)
Definition least_seconds (ranges : list Range) : Q :=
  foldr (λ range total, (fst range + total)%Q) 0%Q ranges.

Definition Slept : Rel := λ st _ st',
  ∃ new, trace st' = trace st ++ new
    ∧ debug st' = debug st
    ∧ sleeps new = new ≫= owed (debug st).

(** *** What becomes of the article requests *)

(** The url a request was settled for: the url of a record written, or
    the url of a "Missing text and/or summary" warning. *)
Definition settled (ev : Event) : list Url :=
  match ev with
  | EvAppend sample => option_list (sample !! k_url)
  | EvLog (LogMissing u) => [u]
  | _ => []
  end.

(** A record as [_get_article_data] builds it. *)
Definition valid_record (sample : Sample) : Prop :=
  ∃ u title summary text,
    sample = mk_sample u title summary text ∧ summary ≠ [] ∧ text ≠ [].

(** A url as [_get_article_urls] builds it from a link. *)
Definition listed (web : Web) (u : Url) : Prop :=
  ∃ link, u = article_url_of web link.

Definition Answered (web : Web) : Rel := λ st o st',
  ∃ new, trace st' = trace st ++ new
    ∧ Forall valid_record (appended new)
    ∧ Forall (listed web) (fetched new)
    ∧ fetched new
      = (new ≫= settled) ++
        match o with
        | Some (HTTPError _) =>
            match last new with Some (EvSessionGet u) => [u] | _ => [] end
        | _ => []
        end
    ∧ match o with
      | Some (HTTPError _) => ∃ u, last new = Some (EvSessionGet u)
      | _ => True
      end.

(** *** The exceptions of a crawl *)

Definition Raises : Rel := λ st o st',
  driver st' = driver st
  ∧ match o with
    | None => True
    | Some IndexError => words st' = []
    | Some ValueError => driver st = false
    | Some (HTTPError status) => 400 ≤ status < 600
    | Some (KeyError _) => False
    end.

(** *** The scraper as [__init__] leaves it *)

(** The object before [_get_dataset_info] runs. *)
Definition fresh (file : option (list Sample)) (max : Z) (dbg : bool)
    : State :=
  mkState false false dbg max 0 ∅ [] file [].

(** [_get_dataset_info] and what follows it in [__init__] change the
    count, the seen set and the word list only. *)
Definition constructed (file : option (list Sample)) (max : Z) (dbg : bool)
    (st : State) : Prop :=
  driver st = false ∧ cookie_button_clicked st = false ∧ debug st = dbg
  ∧ max_articles st = max ∧ dataset_file st = file ∧ trace st = [].

(** The browser is not quit during [new]. *)
Definition Browsing : Rel := λ st _ st',
  ∃ new, trace st' = trace st ++ new ∧ Forall (λ ev, ev ≠ EvDriverQuit) new.

(** *** One query *)

(** The urls that [_get_article_urls] returns for [query] from [st]. *)
Definition listed_for (web : Web) (query : Query) (st : State) : list Url :=
  article_url_of web
    <$> h3_links web (trace st ++ search_events web query st) query.

(** The scraper after the search page of [query] was loaded. *)
Definition searched_state (web : Web) (query : Query) (st : State) : State :=
  set_cookie_button_clicked true (with_events (search_events web query st) st).

(** No search page of this site lists an article. *)
Definition empty_site : Web :=
  mkWeb (λ _ _, []) (λ _, []) (λ _ _, mkResponse 200 article_page) (λ _, true).

(** *** Words drawn and pages searched

    The state is the word that was drawn and not searched yet: a drawn
    word is searched at once, and nothing else is searched. *)
Definition drawn_step (pending : option Query) (ev : Event)
    : option (option Query) :=
  match pending, ev with
  | Some q, EvDriverGet q' => if bool_decide (q = q') then Some None else None
  | Some _, _ => None
  | None, EvDriverGet _ => None
  | None, EvPop q => Some (Some q)
  | None, _ => Some None
  end.

(** Events that neither draw a word nor load a search page. *)
Definition calm (ev : Event) : Prop :=
  match ev with EvPop _ | EvDriverGet _ => False | _ => True end.

Definition Calm : Rel := λ st _ st',
  ∃ new, trace st' = trace st ++ new ∧ Forall calm new.

(** *** A site whose articles the selectors do not fit

    Every search page lists something, no request is answered with an
    error status, and no page has both a text and a summary where
    [_get_text] and [_get_summary] look for them. *)
Record barren (web : Web) : Prop := {
  barren_links : ∀ hist query, h3_links web hist query ≠ [];
  barren_status : ∀ hist u, is_http_error (http_get web hist u) = false;
  barren_page : ∀ hist u, sample_of u (soup (http_get web hist u)) = None;
}.

(** Events that write no record and log no long sleep. *)
Definition fruitless (ev : Event) : Prop :=
  match ev with
  | EvAppend _ | EvTouch
  | EvLog LogLongSleepTrack | EvLog LogLongSleepQuery => False
  | _ => True
  end.

(** A step that returns and changes nothing but the trace and the consent
    flag, by [fruitless] events that draw no word. *)
Definition Idle : Rel := λ st o st',
  o = None
  ∧ dataset_length st' = dataset_length st
  ∧ max_articles st' = max_articles st
  ∧ words st' = words st
  ∧ driver st' = driver st
  ∧ dataset_file st' = dataset_file st
  ∧ seen_urls st' = seen_urls st
  ∧ ∃ new, trace st' = trace st ++ new
           ∧ Forall fruitless new ∧ popped new = [].

(** No page of this site has a summary. *)
Definition no_summary_site : Web :=
  mkWeb (λ _ query, [py "/" ++ query]) (λ _, [])
        (λ _ _, mkResponse 200 (mkSoup (Some (py "Title"))
                                       (Some (py "Body text")) None))
        (λ _, true).

(** * Properties *)

(** ** Title deduplication at export time *)

Section Dedup.
Import DatasetBuilder.

Lemma truthy_nonempty (s : pystr) : truthy s = true ↔ s ≠ [].
Proof. destruct s; cbn; split; congruence. Qed.

(** [unique_samples] only grows at its end. *)
Lemma ignore_loop_acc seen acc samples :
  ignore_loop seen acc samples = acc ++ ignore_loop seen [] samples.
Proof.
  revert seen acc. induction samples as [|s rest IH]; intros seen acc; cbn.
  - by rewrite app_nil_r.
  - destruct (truthy (title_of s) && bool_decide (title_of s ∉ seen)).
    + rewrite (IH _ (acc ++ [s])), (IH _ [s]). by rewrite <- app_assoc.
    + apply IH.
Qed.

Lemma omap_cons_match {A B} (f : A → option B) x l :
  omap f (x :: l) =
  match f x with Some y => y :: omap f l | None => omap f l end.
Proof. done. Qed.

Lemma ignore_loop_first_occurrences seen earlier samples :
  titles_seen seen earlier →
  ignore_loop seen [] samples =
  omap (first_occurrence (earlier ++ samples))
       (seq (length earlier) (length samples)).
Proof.
  revert seen earlier.
  induction samples as [|s rest IH]; intros seen earlier Hseen; [done|].
  cbn [ignore_loop length seq]. rewrite omap_cons_match.
  assert (first_occurrence (earlier ++ s :: rest) (length earlier) =
          if decide (title_of s ≠ [] ∧ title_of s ∉ title_of <$> earlier)
          then Some s else None) as ->.
  { unfold first_occurrence. rewrite list_lookup_middle by done. cbn.
    by rewrite take_app_length. }
  assert (∀ seen', titles_seen seen' (earlier ++ [s]) →
    ignore_loop seen' [] rest =
    omap (first_occurrence (earlier ++ s :: rest))
         (seq (S (length earlier)) (length rest))) as Hrest.
  { intros seen' H'. rewrite (IH seen' (earlier ++ [s]) H').
    rewrite <- app_assoc, length_app. cbn. by rewrite Nat.add_1_r. }
  destruct (decide (title_of s ≠ [] ∧ title_of s ∉ title_of <$> earlier))
    as [[Hne Hnew]|Hdrop].
  - rewrite (proj2 (truthy_nonempty _) Hne), bool_decide_eq_true_2; cbn.
    + rewrite ignore_loop_acc. cbn. f_equal. apply Hrest.
      intros t Ht. rewrite fmap_app, elem_of_app, elem_of_union,
        elem_of_singleton, (Hseen t Ht). cbn. rewrite list_elem_of_singleton.
      tauto.
    + by rewrite (Hseen _ Hne).
  - assert (truthy (title_of s) && bool_decide (title_of s ∉ seen) = false) as ->.
    { apply andb_false_iff. destruct (truthy (title_of s)) eqn:Ht; [right|by left].
      apply truthy_nonempty in Ht. apply bool_decide_eq_false_2.
      rewrite (Hseen _ Ht). tauto. }
    apply Hrest. intros t Ht.
    rewrite fmap_app, elem_of_app, (Hseen t Ht). cbn.
    rewrite list_elem_of_singleton. split; [tauto|].
    intros [?| ->]; [done|].
    destruct (decide (title_of s ∈ title_of <$> earlier)); [done|].
    destruct Hdrop. done.
Qed.

Lemma ignore_duplicates_first_titles samples :
  _ignore_duplicates samples = keep_first_titles samples.
Proof.
  unfold _ignore_duplicates, keep_first_titles.
  rewrite (ignore_loop_first_occurrences ∅ [] samples); [done|].
  intros t _. cbn. by rewrite elem_of_empty, elem_of_nil.
Qed.

End Dedup.

(** ** Running the monad *)

Lemma bind_run {A B} (m : M A) (f : A → M B) st :
  (m ≫= f) st =
  match m st with
  | (Ok a, st') => f a st'
  | (Raise e, st') => (Raise e, st')
  end.
Proof. done. Qed.

Lemma for_each_cons {A} (x : A) xs (body : A → M unit) :
  for_each (x :: xs) body = (body x;; for_each xs body).
Proof. done. Qed.

Section Runs.
Context (web : Web).

Lemma words_pop_run st :
  words_pop st =
  match pop (words st) with
  | Some (query, rest) => (Ok query, with_events [EvPop query] (set_words rest st))
  | None => (Raise IndexError, st)
  end.
Proof. unfold words_pop. mrun. by destruct (pop (words st)) as [[??]|]. Qed.

Lemma _get_article_urls_run query st :
  _get_article_urls web query st =
  if driver st
  then (Ok (article_url_of web <$>
              h3_links web (trace st ++ search_events web query st) query),
        set_cookie_button_clicked true (with_events (search_events web query st) st))
  else (Raise ValueError, st).
Proof.
  unfold _get_article_urls, _short_sleep, _click_cookie_button, when,
    search_events, with_events.
  mrun. destruct (driver st); [|done]. mrun.
  destruct (cookie_button_clicked st) eqn:Hc; mrun.
  - setters. rewrite <- !app_assoc. cbn. by rewrite Hc.
  - setters. rewrite <- !app_assoc. cbn.
    destruct (cookie_button web _); cbn; by rewrite <- !app_assoc.
Qed.

Lemma _get_article_data_run article_url st :
  let request := [EvSleep (short_range (debug st)); EvSessionGet article_url] in
  let response :=
    http_get web (trace st ++ [EvSleep (short_range (debug st))]) article_url in
  _get_article_data web article_url st =
  if is_http_error response
  then (Raise (HTTPError (status_code response)), with_events request st)
  else match sample_of article_url (soup response) with
       | Some sample => (Ok (Some sample), with_events request st)
       | None =>
           (Ok None,
            with_events (request ++ [EvLog (LogMissing article_url)]) st)
       end.
Proof.
  unfold _get_article_data, _short_sleep, raise_for_status,
    sample_of, with_events.
  mrun.
  destruct (is_http_error _); mrun; [setters; by rewrite <- !app_assoc|].
  destruct (_ || _); mrun; setters; by rewrite <- !app_assoc.
Qed.

Lemma _save_sample_run (sample : Sample) u st :
  sample !! k_url = Some u →
  _save_sample sample st = (Ok tt, saved sample u st).
Proof.
  intros Hu.
  unfold _save_sample, getitem, when, saved, save_events, with_events,
    records_of.
  rewrite Hu. mrun.
  destruct (dataset_file st) as [records|] eqn:Hf; mrun;
    (destruct (_ =? 0); mrun; setters; rewrite <- ?app_assoc; cbn;
     by rewrite ?Hf).
Qed.

Lemma mk_sample_url u title summary text :
  mk_sample u title summary text !! k_url = Some u.
Proof. unfold mk_sample. by rewrite lookup_insert_eq. Qed.

Lemma sample_of_Some u page sample :
  sample_of u page = Some sample →
  sample !! k_url = Some u ∧ sample_truthy (Some sample) = true.
Proof.
  unfold sample_of. destruct (_ || _); [done|]. intros [= <-].
  split; [apply mk_sample_url|]. unfold sample_truthy. apply negb_true_iff.
  apply bool_decide_eq_false_2. intros He.
  pose proof (mk_sample_url u (_get_title page) (_get_summary page)
                (_get_text page)) as Hu.
  by rewrite He in Hu.
Qed.

Lemma scrape_article_run article_url st :
  scrape_article web article_url st =
  if bool_decide (article_url ∈ seen_urls st) then (Ok tt, st) else
  if is_http_error (answer web article_url st)
  then (Raise (HTTPError (status_code (answer web article_url st))),
        with_events (request_events article_url st) st)
  else match sample_of article_url (soup (answer web article_url st)) with
       | Some sample =>
           (Ok tt, saved sample article_url
                     (with_events (request_events article_url st) st))
       | None =>
           (Ok tt, with_events (request_events article_url st ++
                                [EvLog (LogMissing article_url)]) st)
       end.
Proof.
  unfold scrape_article. rewrite bind_run. cbn [get_state].
  destruct (bool_decide _); [done|].
  rewrite bind_run, _get_article_data_run. fold (answer web article_url st).
  destruct (is_http_error _); [done|].
  destruct (sample_of _ _) as [sample|] eqn:Hs; [|done].
  apply sample_of_Some in Hs as [Hu Ht]. rewrite Ht. cbn [when].
  by apply _save_sample_run.
Qed.

End Runs.

(** ** Recovery at construction *)

Lemma urls_of_cons (sample : Sample) u records :
  sample !! k_url = Some u → urls_of (sample :: records) = u :: urls_of records.
Proof. intros Hu. unfold urls_of. by rewrite omap_cons_match, Hu. Qed.

Lemma urls_of_app (l1 l2 : list Sample) :
  urls_of (l1 ++ l2) = urls_of l1 ++ urls_of l2.
Proof. apply omap_app. Qed.

Lemma note_record_run (sample : Sample) u st :
  sample !! k_url = Some u →
  note_record sample st =
  (Ok tt, set_dataset_length (dataset_length st + 1)
            (set_seen_urls ({[u]} ∪ seen_urls st) st)).
Proof. intros Hu. unfold note_record, getitem. by rewrite Hu. Qed.

Lemma recovery_loop (records : list Sample) st :
  Forall has_url records →
  ∃ st', for_each records note_record st = (Ok tt, st')
    ∧ dataset_length st' = dataset_length st + Z.of_nat (length records)
    ∧ seen_urls st' = list_to_set (urls_of records) ∪ seen_urls st
    ∧ dataset_file st' = dataset_file st
    ∧ trace st' = trace st
    ∧ max_articles st' = max_articles st ∧ debug st' = debug st
    ∧ driver st' = driver st.
Proof.
  intros Hurl. revert st.
  induction records as [|s records IH]; intros st.
  - exists st. cbn. repeat split; [lia|].
    by rewrite (left_id_L ∅ (∪)).
  - apply Forall_cons in Hurl as [[u Hu] Hurl].
    specialize (IH Hurl).
    rewrite for_each_cons, bind_run, (note_record_run _ _ _ Hu).
    destruct (IH (set_dataset_length (dataset_length st + 1)
                    (set_seen_urls ({[u]} ∪ seen_urls st) st)))
      as (st' & -> & Hlen & Hseen & Hfile & Htr & Hmax & Hdbg & Hdrv).
    exists st'. rewrite (urls_of_cons _ _ _ Hu), length_cons. cbn in *.
    repeat split; try done; [lia|].
    rewrite Hseen. set_solver.
Qed.

(** ** Sequential relations through the methods *)

Section Sat.
Context (R : Rel) `{!Sequential R}.

Lemma sat_ret {A} (a : A) : sat R (mret a).
Proof. intros st. apply seq_refl. Qed.

Lemma sat_get_state : sat R get_state.
Proof. intros st. apply seq_refl. Qed.

Lemma sat_bind {A B} (m : M A) (f : A → M B) :
  sat R m → (∀ a, sat R (f a)) → sat R (m ≫= f).
Proof.
  intros Hm Hf st. rewrite bind_run. specialize (Hm st).
  destruct (m st) as [[a|e] st1]; cbn in *; [|done].
  eapply seq_trans; [exact Hm|apply Hf].
Qed.

Lemma sat_when (b : bool) (m : M unit) : sat R m → sat R (when b m).
Proof. destruct b; [done|]. intros _. apply sat_ret. Qed.

Lemma sat_for_each {A} (xs : list A) (body : A → M unit) :
  (∀ x, sat R (body x)) → sat R (for_each xs body).
Proof.
  intros Hb. induction xs as [|x xs IH]; [apply sat_ret|].
  rewrite for_each_cons. apply sat_bind; auto.
Qed.

Section Loops.
Context (web : Web).
Context (H_scrape : ∀ query, sat R (_scrape web query)).
Context (H_retry : sat R (emit (EvLog LogLongSleepQuery);; _long_sleep;; words_pop)).

Lemma sat_scrape_retry query : sat R (scrape_retry web query).
Proof.
  intros st. funelim (scrape_retry web query st); funelim_tidy;
    clear Heqcall;
    pose proof (H_scrape query st) as Hs; rewrite H1 in Hs; cbn in *.
  - done.
  - done.
  - pose proof (H_retry st1) as Hr. rewrite H2 in Hr.
    eapply seq_trans; [exact Hs|]. eapply seq_trans; [exact Hr|]. apply H.
  - pose proof (H_retry st1) as Hr. rewrite H2 in Hr.
    eapply seq_trans; [exact Hs|exact Hr].
Qed.

Context (H_head : ∀ track, sat R (round_head track)).

Lemma sat_scrape_rounds track : sat R (scrape_rounds web track).
Proof.
  intros st. funelim (scrape_rounds web track st); funelim_tidy;
    clear Heqcall; cbn.
  - apply seq_refl.
  - pose proof (H_head track st) as Hh. by rewrite H1 in Hh.
  - pose proof (H_head track st) as Hh. rewrite H1 in Hh. cbn in Hh.
    pose proof (sat_scrape_retry query st1) as Hr. rewrite H2 in Hr. cbn in Hr.
    eapply seq_trans; [exact Hh|]. eapply seq_trans; [exact Hr|]. apply H.
  - pose proof (H_head track st) as Hh. rewrite H1 in Hh. cbn in Hh.
    pose proof (sat_scrape_retry query st1) as Hr. rewrite H2 in Hr. cbn in Hr.
    eapply seq_trans; [exact Hh|exact Hr].
Qed.

Context (H_log : ∀ n, sat R (emit (EvLog (LogDone n)))).

Lemma sat_scrape : sat R (scrape web).
Proof.
  unfold scrape. apply sat_bind; [apply sat_get_state|]. intros st0.
  apply sat_bind; [apply sat_scrape_rounds|]. intros _.
  apply sat_bind; [apply sat_get_state|]. intros st1. apply H_log.
Qed.

End Loops.
End Sat.

(** ** Monitors and concatenation *)

Lemma monitor_app {S} (step : S → Event → option S) s a b :
  monitor step s (a ++ b) =
  match monitor step s a with
  | Some s' => monitor step s' b
  | None => None
  end.
Proof.
  revert s. induction a as [|ev a IH]; intros s; [done|]. cbn.
  destruct (step s ev); [apply IH|done].
Qed.

Lemma appended_app a b : appended (a ++ b) = appended a ++ appended b.
Proof. apply omap_app. Qed.

Lemma popped_app a b : popped (a ++ b) = popped a ++ popped b.
Proof. apply omap_app. Qed.

Lemma fetched_app a b : fetched (a ++ b) = fetched a ++ fetched b.
Proof. apply omap_app. Qed.

Lemma appended_cons ev tr :
  appended (ev :: tr) =
  match ev with EvAppend sample => sample :: appended tr | _ => appended tr end.
Proof. by destruct ev. Qed.

Lemma polite_quiet seen evs :
  Forall quiet evs → monitor polite_step seen evs = Some seen.
Proof.
  induction 1 as [|ev evs Hq _ IH]; [done|]. cbn.
  by destruct ev.
Qed.

Lemma appended_quiet evs : Forall quiet evs → appended evs = [].
Proof.
  induction 1 as [|ev evs Hq _ IH]; [done|]. unfold appended in *.
  rewrite omap_cons_match. by destruct ev.
Qed.

Lemma popped_quiet evs : Forall quiet evs → popped evs = [].
Proof.
  induction 1 as [|ev evs Hq _ IH]; [done|]. unfold popped in *.
  rewrite omap_cons_match. by destruct ev.
Qed.

Lemma paced_step_quiet dbg prev ev :
  awaits_sleep prev = false → quiet ev →
  paced_step dbg prev ev = Some (Some ev).
Proof.
  destruct prev as [[]|], ev; try done;
    repeat match goal with l : LogLine |- _ => destruct l end; done.
Qed.

Lemma paced_quiet_from dbg prev evs :
  awaits_sleep prev = false → Forall quiet evs →
  ∃ last, monitor (paced_step dbg) prev evs = Some last
          ∧ awaits_sleep last = false.
Proof.
  intros Hp Hq. revert prev Hp.
  induction Hq as [|ev evs Hq _ IH]; intros prev Hp; [by exists prev|].
  cbn. rewrite paced_step_quiet by done. apply IH.
  destruct ev as [| | | | | | | |line]; try done. by destruct line.
Qed.

(** A paced trace is read the same way after any event that no sleep has
    to follow. *)
Lemma paced_resume dbg prev evs last :
  awaits_sleep prev = false →
  monitor (paced_step dbg) None evs = Some last →
  monitor (paced_step dbg) prev evs =
  Some (match evs with [] => prev | _ => last end).
Proof.
  intros Hp. destruct evs as [|ev evs]; [done|]. cbn.
  destruct prev as [[| | | | | | | |[]]|]; try done; by destruct ev.
Qed.

Lemma paced_app dbg a b : paced dbg a → paced dbg b → paced dbg (a ++ b).
Proof.
  intros (la & Ha & Hla) (lb & Hb & Hlb). unfold paced.
  rewrite monitor_app, Ha, (paced_resume _ _ _ _ Hla Hb).
  destruct b; eauto.
Qed.

(** ** What every step of the crawl keeps *)

Lemma advances_refl st : advances st [] st.
Proof.
  split; cbn; rewrite ?app_nil_r; try done; [lia|].
  by exists None.
Qed.

Lemma advances_trans st a st1 b st2 :
  advances st a st1 → advances st1 b st2 → advances st (a ++ b) st2.
Proof.
  intros [] []. split.
  - rewrite adv_trace1, adv_trace0. by rewrite app_assoc.
  - congruence.
  - congruence.
  - congruence.
  - by rewrite monitor_app, adv_seen0.
  - by rewrite appended_app, adv_file1, adv_file0, app_assoc.
  - rewrite appended_app, length_app. lia.
  - by rewrite popped_app, reverse_app, adv_words0, adv_words1, app_assoc.
  - apply paced_app; [done|]. by rewrite <- adv_debug0.
Qed.

#[export] Instance Adv_sequential : Sequential Adv.
Proof.
  split.
  - intros st. exists []. apply advances_refl.
  - intros st st1 o st2 [a Ha] [b Hb]. exists (a ++ b).
    by eapply advances_trans.
Qed.

Lemma advances_quiet evs st :
  Forall quiet evs → advances st evs (with_events evs st).
Proof.
  intros Hq. split; cbn; try done.
  - by apply polite_quiet.
  - by rewrite appended_quiet, app_nil_r.
  - rewrite appended_quiet by done. cbn. lia.
  - rewrite popped_quiet by done. by rewrite app_nil_r.
  - by apply paced_quiet_from.
Qed.

Lemma pop_Some {A} (l : list A) x rest :
  pop l = Some (x, rest) ↔ l = rest ++ [x].
Proof.
  unfold pop. destruct l as [|y l _] using rev_ind.
  - cbn. split; [done|]. by destruct rest.
  - rewrite last_snoc, removelast_last. split.
    + by intros [= -> ->].
    + by intros [-> [= ->]]%app_inj_tail.
Qed.

Lemma pop_None {A} (l : list A) : pop l = None ↔ l = [].
Proof.
  unfold pop. destruct l as [|y l _] using rev_ind; [done|].
  rewrite last_snoc. split; [done|]. by destruct l.
Qed.

Section Advances.
Context (web : Web).

Lemma adv_short_sleep : sat Adv _short_sleep.
Proof.
  intros st. exists [EvSleep (short_range (debug st))].
  apply (advances_quiet [_]). by repeat constructor.
Qed.

Lemma adv_long_sleep : sat Adv _long_sleep.
Proof.
  intros st. exists [EvSleep (long_range (debug st))].
  apply (advances_quiet [_]). by repeat constructor.
Qed.

Lemma adv_log line : quiet (EvLog line) → sat Adv (emit (EvLog line)).
Proof.
  intros Hq st. exists [EvLog line].
  apply (advances_quiet [_]). by repeat constructor.
Qed.

(** The log line of a long sleep and the sleep itself come together. *)
Lemma announced_run {A} line (k : M A) st :
  (emit (EvLog line);; _long_sleep;; k) st =
  k (with_events [EvLog line; EvSleep (long_range (debug st))] st).
Proof. unfold _long_sleep. mrun. setters. by rewrite <- app_assoc. Qed.

Lemma advances_announced line st :
  advances st [EvLog line; EvSleep (long_range (debug st))]
    (with_events [EvLog line; EvSleep (long_range (debug st))] st).
Proof.
  split; cbn; try done; rewrite ?app_nil_r; try done; [lia|].
  unfold paced. simpl.
  destruct line; simpl; rewrite ?bool_decide_eq_true_2 by done; by eexists.
Qed.

Lemma adv_announced {A} line (k : M A) :
  sat Adv k → sat Adv (emit (EvLog line);; _long_sleep;; k).
Proof.
  intros Hk st. rewrite announced_run.
  destruct (Hk (with_events [EvLog line; EvSleep (long_range (debug st))] st))
    as [new Hnew].
  eexists. eapply advances_trans; [apply advances_announced|exact Hnew].
Qed.

Lemma adv_words_pop : sat Adv words_pop.
Proof.
  intros st. rewrite words_pop_run.
  destruct (pop (words st)) as [[query rest]|] eqn:Hp; cbn.
  - apply pop_Some in Hp. exists [EvPop query].
    split; cbn; try done; [by rewrite app_nil_r|lia|by exists (Some (EvPop query))].
  - exists []. apply advances_refl.
Qed.

Lemma search_events_quiet query st :
  ∃ evs, search_events web query st =
           [EvDriverGet query; EvSleep (short_range (debug st))] ++ evs
         ∧ Forall quiet evs.
Proof.
  unfold search_events. destruct (cookie_button_clicked st); eexists;
    (split; [done|]); repeat constructor. by destruct (cookie_button _ _).
Qed.

Lemma adv_get_article_urls query : sat Adv (_get_article_urls web query).
Proof.
  intros st. rewrite _get_article_urls_run.
  destruct (driver st); [|exists []; apply advances_refl].
  destruct (search_events_quiet query st) as (evs & Hev & Hq).
  rewrite Hev. eexists. split; cbn; try done.
  - simpl. by apply polite_quiet.
  - change (appended _) with (appended evs).
    by rewrite appended_quiet, app_nil_r.
  - change (appended _) with (appended evs).
    rewrite appended_quiet by done. cbn. lia.
  - change (popped _) with (popped evs).
    rewrite popped_quiet by done. by rewrite app_nil_r.
  - unfold paced. simpl. rewrite bool_decide_eq_true_2 by done.
    by apply paced_quiet_from.
Qed.

Lemma with_events_app a b st :
  with_events (a ++ b) st = with_events b (with_events a st).
Proof. setters. by rewrite app_assoc. Qed.

Lemma advances_request u st :
  u ∉ seen_urls st →
  advances st (request_events u st) (with_events (request_events u st) st).
Proof.
  intros Hu. split; cbn; try done.
  - by rewrite bool_decide_eq_false_2.
  - by rewrite app_nil_r.
  - lia.
  - by rewrite app_nil_r.
  - unfold paced. simpl. rewrite bool_decide_eq_true_2 by done. by eexists.
Qed.

Lemma save_events_shape sample st :
  ∃ a b, save_events sample st = a ++ [EvAppend sample] ++ b
         ∧ Forall quiet a ∧ Forall quiet b.
Proof.
  unfold save_events. do 2 eexists. split; [done|].
  split; [destruct (dataset_file st)|destruct (_ =? 0)];
    by repeat constructor.
Qed.

Lemma appended_save_events sample st :
  appended (save_events sample st) = [sample].
Proof.
  destruct (save_events_shape sample st) as (a & b & -> & Ha & Hb).
  by rewrite !appended_app, (appended_quiet a), (appended_quiet b).
Qed.

Lemma advances_saved (sample : Sample) u st :
  sample !! k_url = Some u → u ∉ seen_urls st →
  advances st (save_events sample st) (saved sample u st).
Proof.
  intros Hs Hu.
  destruct (save_events_shape sample st) as (a & b & Hev & Ha & Hb).
  split; try done.
  - rewrite Hev, !monitor_app, polite_quiet by done. simpl.
    rewrite Hs, bool_decide_eq_false_2 by done. by apply polite_quiet.
  - by rewrite appended_save_events.
  - rewrite appended_save_events. cbn. lia.
  - rewrite Hev, !popped_app, (popped_quiet a), (popped_quiet b) by done.
    by rewrite app_nil_r.
  - rewrite Hev. apply paced_app; [by apply paced_quiet_from|].
    apply (paced_app _ [_]); [by eexists|by apply paced_quiet_from].
Qed.

Lemma adv_scrape_article u : sat Adv (scrape_article web u).
Proof.
  intros st. rewrite scrape_article_run.
  destruct (bool_decide _) eqn:Hseen; [exists []; apply advances_refl|].
  apply bool_decide_eq_false in Hseen.
  pose proof (advances_request u st Hseen) as Hreq.
  destruct (is_http_error _); [by eexists|].
  destruct (sample_of _ _) as [sample|] eqn:Hs.
  - apply sample_of_Some in Hs as [Hu _]. eexists.
    eapply advances_trans; [exact Hreq|]. by apply advances_saved.
  - eexists. eapply advances_trans; [exact Hreq|].
    cbn [snd]. rewrite with_events_app.
    apply (advances_quiet [_]). by repeat constructor.
Qed.

Lemma adv__scrape query : sat Adv (_scrape web query).
Proof.
  unfold _scrape. apply sat_bind; [apply _|apply adv_get_article_urls|].
  intros [|u urls]; [apply sat_ret, _|].
  apply sat_bind; [apply _| |intros; apply sat_ret, _].
  apply sat_for_each; [apply _|]. apply adv_scrape_article.
Qed.

Lemma adv_retry_pop :
  sat Adv (emit (EvLog LogLongSleepQuery);; _long_sleep;; words_pop).
Proof.
  apply adv_announced, adv_words_pop.
Qed.

Lemma adv_round_head track : sat Adv (round_head track).
Proof.
  unfold round_head. apply sat_bind; [apply _|apply sat_get_state, _|].
  intros st. apply sat_bind; [apply _| |].
  - destruct (_ >? 25); [|apply sat_ret, _].
    apply adv_announced.
    apply sat_bind; [apply _|apply sat_get_state, _|]. intros.
    apply sat_ret, _.
  - intros. apply sat_bind; [apply _|apply adv_words_pop|]. intros.
    apply sat_ret, _.
Qed.


Lemma adv_scrape_rounds track : sat Adv (scrape_rounds web track).
Proof.
  apply sat_scrape_rounds;
    [apply _|apply adv__scrape|apply adv_retry_pop|apply adv_round_head].
Qed.

Lemma adv_scrape : sat Adv (scrape web).
Proof.
  apply sat_scrape;
    [apply _|apply adv__scrape|apply adv_retry_pop|apply adv_round_head
    |intros; by apply adv_log].
Qed.

End Advances.

(** ** What one query's work never does

    [_scrape] draws no query, logs no long sleep and never finds the pool
    empty: those belong to the two loops of [scrape]. *)

#[export] Instance Inner_sequential : Sequential Inner.
Proof.
  split.
  - intros st. split; [done|]. exists []. by rewrite app_nil_r.
  - intros st st1 o st2 [_ (a & Ha & Hia)] [Ho (b & Hb & Hib)].
    split; [done|]. exists (a ++ b). rewrite Hb, Ha, app_assoc.
    split; [done|]. by apply Forall_app.
Qed.

Section InnerSteps.
Context (web : Web).

Lemma inner_get_article_urls query : sat Inner (_get_article_urls web query).
Proof.
  intros st. rewrite _get_article_urls_run. destruct (driver st).
  - split; [done|]. eexists. split; [done|]. unfold search_events.
    destruct (cookie_button_clicked st); cbn;
      try destruct (cookie_button web _); by repeat constructor.
  - split; [done|]. exists []. by rewrite app_nil_r.
Qed.

Lemma inner_scrape_article u : sat Inner (scrape_article web u).
Proof.
  intros st. rewrite scrape_article_run.
  destruct (bool_decide _); [apply seq_refl|].
  destruct (is_http_error _).
  { split; [done|]. eexists. split; [done|]. by repeat constructor. }
  destruct (sample_of _ _) as [sample|].
  - split; [done|]. eexists. split; [cbn; by rewrite <- app_assoc|].
    apply Forall_app. split; [by repeat constructor|].
    unfold save_events. cbn.
    destruct (dataset_file st); destruct (_ =? 0); by repeat constructor.
  - split; [done|]. eexists. split; [done|]. by repeat constructor.
Qed.

Lemma inner__scrape query : sat Inner (_scrape web query).
Proof.
  unfold _scrape. apply sat_bind; [apply _|apply inner_get_article_urls|].
  intros [|u urls]; [apply sat_ret, _|].
  apply sat_bind; [apply _| |intros; apply sat_ret, _].
  apply sat_for_each; [apply _|]. apply inner_scrape_article.
Qed.

(** A query without results leaves everything but the trace and the
    consent flag as it was. *)
Lemma _scrape_false query st st1 :
  _scrape web query st = (Ok false, st1) →
  st1 = set_cookie_button_clicked true
          (with_events (search_events web query st) st).
Proof.
  unfold _scrape. rewrite bind_run, _get_article_urls_run.
  destruct (driver st); [|done].
  destruct (_ <$> _) as [|u urls]; [by intros [= <-]|].
  rewrite bind_run. by destruct (for_each _ _ _) as [[[]|e] st2].
Qed.

End InnerSteps.

(** ** The two loops of [scrape] *)

Lemma quota_inner max count new :
  Forall inner_event new →
  monitor (quota_step max) count new
  = Some (count + Z.of_nat (length (appended new))).
Proof.
  intros Hi. revert count.
  induction Hi as [|ev new Hev _ IH]; intros count.
  - cbn. f_equal. lia.
  - rewrite appended_cons.
    destruct ev; try done; cbn [monitor quota_step]; rewrite IH; f_equal;
      cbn [length]; lia.
Qed.

Lemma cooldown_inner batch retry new :
  Forall inner_event new →
  monitor cooldown_step (batch, retry) new
  = Some (batch + Z.of_nat (length (appended new)), retry).
Proof.
  intros Hi. revert batch.
  induction Hi as [|ev new Hev _ IH]; intros batch.
  - cbn. do 2 f_equal. lia.
  - rewrite appended_cons.
    destruct ev as [| | | | | | | |[]]; try done;
      cbn [monitor cooldown_step]; rewrite IH; do 2 f_equal;
      cbn [length]; lia.
Qed.

Section LoopRuns.
Context (web : Web).

Lemma retry_pop_run st :
  (emit (EvLog LogLongSleepQuery);; _long_sleep;; words_pop) st =
  let evs := [EvLog LogLongSleepQuery; EvSleep (long_range (debug st))] in
  match pop (words st) with
  | Some (query, rest) =>
      (Ok query, with_events (evs ++ [EvPop query]) (set_words rest st))
  | None => (Raise IndexError, with_events evs st)
  end.
Proof.
  unfold _long_sleep, words_pop. mrun.
  destruct (pop (words st)) as [[query rest]|]; mrun; setters;
    by rewrite <- ?app_assoc.
Qed.

Lemma round_head_run track st :
  round_head track st =
  let cool := dataset_length st - track >? 25 in
  let evs := if cool
             then [EvLog LogLongSleepTrack; EvSleep (long_range (debug st))]
             else [] in
  match pop (words st) with
  | Some (query, rest) =>
      (Ok (if cool then dataset_length st else track, query),
       with_events (evs ++ [EvPop query]) (set_words rest st))
  | None => (Raise IndexError, with_events evs st)
  end.
Proof.
  unfold round_head, _long_sleep, words_pop. mrun.
  destruct (_ >? 25); mrun;
    destruct (pop (words st)) as [[query rest]|]; mrun; setters;
    rewrite <- ?app_assoc, ?app_nil_r; cbn; first [done|by destruct st].
Qed.

(** What the loops need to know of one call of [_scrape]. *)
Lemma _scrape_step query st :
  ∃ new, advances st new (_scrape web query st).2
    ∧ Forall inner_event new
    ∧ (_scrape web query st).1 ≠ Raise IndexError
    ∧ ((_scrape web query st).1 = Ok false → appended new = []).
Proof.
  destruct (adv__scrape web query st) as [new Hadv].
  destruct (inner__scrape web query st) as [Hne (new' & Htr & Hin)].
  rewrite (adv_trace _ _ _ Hadv) in Htr. apply app_inv_head in Htr as <-.
  exists new. split; [done|]. split; [done|]. split.
  - intros Hr. rewrite Hr in Hne. by apply Hne.
  - intros Hr. destruct (_scrape web query st) as [r st1] eqn:Hs.
    cbn in Hr. subst r. pose proof (adv_length _ _ _ Hadv) as Hlen.
    apply _scrape_false in Hs. cbn in Hlen. subst st1. cbn in Hlen.
    destruct (appended new); [done|]. cbn in Hlen. lia.
Qed.

End LoopRuns.

Section Discipline.
Context (web : Web).

Lemma advances_events st new st' evs :
  advances st new st' → trace st' = trace st ++ evs → new = evs.
Proof.
  intros Hadv Htr. rewrite (adv_trace _ _ _ Hadv) in Htr.
  by apply app_inv_head in Htr.
Qed.

Lemma retry_disciplined query st batch :
  dataset_length st < max_articles st →
  ∃ new,
    disciplined st batch new (scrape_retry web query st).1
      (scrape_retry web query st).2
      (batch + (dataset_length (scrape_retry web query st).2
                - dataset_length st)).
Proof.
  intros Hlt. funelim (scrape_retry web query st); funelim_tidy;
    clear Heqcall; cbn [fst snd];
    destruct (_scrape_step web query st) as (new1 & Hadv1 & Hin1 & Hne1 & Hf1);
    rewrite H1 in Hadv1, Hne1, Hf1; cbn [fst snd] in *;
    pose proof (adv_length _ _ _ Hadv1) as Hlen1.
  - exists new1. split; [done| | |done].
    + by rewrite quota_inner, Hlen1.
    + exists false. rewrite cooldown_inner by done.
      split; [|done]. do 2 f_equal. lia.
  - exists new1. split; [done| | |by intros [= ->]].
    + by rewrite quota_inner, Hlen1.
    + exists false. rewrite cooldown_inner by done.
      split; [|done]. do 2 f_equal. lia.
  - rewrite (Hf1 eq_refl) in Hlen1. cbn in Hlen1.
    destruct (adv_retry_pop st1) as [new2 Hadv2].
    pose proof (retry_pop_run st1) as Hrun. rewrite H2 in Hrun. cbn in Hrun.
    rewrite H2 in Hadv2. cbn [snd] in Hadv2.
    destruct (pop (words st1)) as [[q rest]|]; [|done].
    injection Hrun as -> ->.
    apply advances_events with (evs := [EvLog LogLongSleepQuery;
      EvSleep (long_range (debug st1)); EvPop q]) in Hadv2 as Hev; [|done].
    pose proof (adv_length _ _ _ Hadv2) as Hlen2.
    pose proof (adv_max _ _ _ Hadv1) as Hmax1.
    pose proof (adv_max _ _ _ Hadv2) as Hmax2.
    subst new2. cbn in Hlen2.
    match goal with
    | IH : ∀ batch, _ → ∃ _, disciplined _ _ _ _ _ _ |- _ =>
        destruct (IH batch) as [new3 []]; [cbn; lia|]
    end.
    eexists (new1 ++ _ ++ new3). split.
    + eapply advances_trans; [done|]. by eapply advances_trans.
    + rewrite monitor_app, quota_inner, (Hf1 eq_refl) by done.
      rewrite monitor_app. cbn. rewrite Z.add_0_r.
      destruct (Z.ltb_spec (dataset_length st) (max_articles st)); [|lia].
      cbn in dis_quota0. rewrite Z.add_0_r in Hlen1.
      by rewrite Hmax1, Hlen1 in dis_quota0.
    + destruct dis_cooldown0 as (retry & Hcd & Hok). exists retry.
      rewrite monitor_app, cooldown_inner, (Hf1 eq_refl) by done.
      rewrite monitor_app. cbn. rewrite Z.add_0_r, Hcd.
      split; [|done]. cbn. do 2 f_equal. lia.
    + intros Hr. specialize (dis_exhausted0 Hr). cbn in dis_exhausted0. lia.
  - rewrite (Hf1 eq_refl) in Hlen1. cbn in Hlen1.
    destruct (adv_retry_pop st1) as [new2 Hadv2].
    pose proof (retry_pop_run st1) as Hrun. rewrite H2 in Hrun. cbn in Hrun.
    rewrite H2 in Hadv2. cbn [snd] in Hadv2.
    destruct (pop (words st1)) as [[q rest]|]; [done|].
    injection Hrun as -> ->.
    apply advances_events with (evs := [EvLog LogLongSleepQuery;
      EvSleep (long_range (debug st1))]) in Hadv2 as Hev; [|done].
    pose proof (adv_length _ _ _ Hadv2) as Hlen2.
    pose proof (adv_max _ _ _ Hadv1) as Hmax1.
    subst new2. cbn in Hlen2.
    eexists (new1 ++ _). split.
    + by eapply advances_trans.
    + rewrite monitor_app, quota_inner, (Hf1 eq_refl) by done. cbn.
      f_equal. lia.
    + exists true.
      rewrite monitor_app, cooldown_inner, (Hf1 eq_refl) by done. cbn.
      split; [|done]. do 2 f_equal. lia.
    + intros _. cbn. lia.
Qed.

Lemma disciplined_trans st batch a st1 batch1 b r st2 batch2 :
  disciplined st batch a (Ok tt) st1 batch1 →
  disciplined st1 batch1 b r st2 batch2 →
  disciplined st batch (a ++ b) r st2 batch2.
Proof.
  intros [Ha Hqa (ra & Hca & Hra) _] [Hb Hqb (rb & Hcb & Hrb) Hxb].
  pose proof (adv_max _ _ _ Ha) as Hmax. rewrite Hmax in *.
  rewrite (Hra eq_refl) in Hca. split.
  - by eapply advances_trans.
  - by rewrite monitor_app, Hqa.
  - exists rb. by rewrite monitor_app, Hca.
  - done.
Qed.

Lemma head_disciplined track st :
  dataset_length st < max_articles st →
  ∃ new batch',
    match round_head track st with
    | (Ok (track', _), st1) =>
        batch' = dataset_length st1 - track'
        ∧ disciplined st (dataset_length st - track) new (Ok tt) st1 batch'
    | (Raise e, st1) =>
        e = IndexError
        ∧ disciplined st (dataset_length st - track) new (Raise e) st1 batch'
    end.
Proof.
  intros Hlt. destruct (adv_round_head track st) as [new Hadv]. exists new.
  rewrite round_head_run in *. cbn zeta in *.
  apply Z.ltb_lt in Hlt as Hltb.
  destruct (pop (words st)) as [[q rest]|]; cbn [fst snd] in Hadv.
  - eexists. split; [done|].
    destruct (Z.gtb_spec (dataset_length st - track) 25) as [Hc|Hc];
      (eapply advances_events in Hadv as Hev; [|done]); subst new;
      (split; [done|cbn; by rewrite Hltb| |done]); exists false;
      (split; [|done]); cbn.
    + destruct (Z.ltb_spec 25 (dataset_length st - track)); [|lia].
      cbn. do 2 f_equal. lia.
    + by destruct (Z.leb_spec (dataset_length st - track) 25); [|lia].
  - destruct (Z.gtb_spec (dataset_length st - track) 25) as [Hc|Hc];
      (eapply advances_events in Hadv as Hev; [|done]); subst new.
    + exists 0. split; [done|]. split; [done|done| |cbn; lia].
      exists false. split; [|done]. cbn.
      by destruct (Z.ltb_spec 25 (dataset_length st - track)); [|lia].
    + eexists. split; [done|]. split; [done|done| |cbn; lia].
      by exists false.
Qed.

Lemma rounds_disciplined track st :
  ∃ new batch',
    disciplined st (dataset_length st - track) new
      (scrape_rounds web track st).1 (scrape_rounds web track st).2 batch'
    ∧ ((scrape_rounds web track st).1 = Ok tt →
       max_articles st ≤ dataset_length (scrape_rounds web track st).2).
Proof.
  funelim (scrape_rounds web track st); funelim_tidy; clear Heqcall;
    cbn [fst snd].
  - apply Z.ltb_ge in Heq. exists [], (dataset_length st - track).
    split; [|done]. split; [apply advances_refl|done|by exists false|done].
  - apply Z.ltb_lt in Heq.
    destruct (head_disciplined track st Heq) as (new & batch' & Hh).
    rewrite H1 in Hh. destruct Hh as [-> Hh]. by exists new, batch'.
  - apply Z.ltb_lt in Heq.
    destruct (head_disciplined track st Heq) as (new1 & batch1 & Hh).
    rewrite H1 in Hh. destruct Hh as [-> Hh].
    pose proof (adv_max _ _ _ (dis_adv _ _ _ _ _ _ Hh)) as Hmax1.
    pose proof (adv_length _ _ _ (dis_adv _ _ _ _ _ _ Hh)) as Hlen1.
    assert (dataset_length st1 < max_articles st1) as Hlt1.
    { pose proof (round_head_run track st) as Hrun. rewrite H1 in Hrun.
      cbn zeta in Hrun. destruct (pop (words st)) as [[??]|]; [|done].
      injection Hrun as _ _ ->. cbn. lia. }
    destruct (retry_disciplined query st1 (dataset_length st1 - track') Hlt1)
      as [new2 Hr].
    rewrite H2 in Hr. cbn [fst snd] in Hr.
    replace (dataset_length st1 - track' +
             (dataset_length st2 - dataset_length st1))
      with (dataset_length st2 - track') in Hr by lia.
    pose proof (adv_max _ _ _ (dis_adv _ _ _ _ _ _ Hr)) as Hmax2.
    match goal with
    | IH : ∃ _ _, disciplined _ _ _ _ _ _ ∧ _ |- _ =>
        destruct IH as (new3 & batch3 & Hd3 & Hdone)
    end.
    exists (new1 ++ new2 ++ new3), batch3. split.
    + eapply disciplined_trans; [done|]. by eapply disciplined_trans.
    + intros Hok. specialize (Hdone Hok). lia.
  - apply Z.ltb_lt in Heq.
    destruct (head_disciplined track st Heq) as (new1 & batch1 & Hh).
    rewrite H1 in Hh. destruct Hh as [-> Hh].
    assert (dataset_length st1 < max_articles st1) as Hlt1.
    { pose proof (round_head_run track st) as Hrun. rewrite H1 in Hrun.
      cbn zeta in Hrun. destruct (pop (words st)) as [[??]|]; [|done].
      injection Hrun as _ _ ->. cbn. lia. }
    destruct (retry_disciplined query st1 (dataset_length st1 - track') Hlt1)
      as [new2 Hr].
    rewrite H2 in Hr. cbn [fst snd] in Hr.
    eexists (new1 ++ new2), _. split; [|done].
    by eapply disciplined_trans.
Qed.

End Discipline.

(** ** Article requests answered with an error status *)

Section Faults.
Context (web : Web).

Lemma faults_app hist a b :
  faults web hist (a ++ b) = faults web hist a ++ faults web (hist ++ a) b.
Proof.
  revert hist. induction a as [|ev a IH]; intros hist; cbn.
  - by rewrite app_nil_r.
  - by rewrite IH, <- !app_assoc.
Qed.

Lemma faults_no_fetch hist new :
  Forall no_fetch new → faults web hist new = [].
Proof.
  intros Hn. revert hist. induction Hn as [|ev new Hev _ IH]; intros hist;
    [done|].
  cbn. rewrite IH. by destruct ev.
Qed.

#[export] Instance Faulted_sequential : Sequential (Faulted web).
Proof.
  split.
  - intros st. exists []. by rewrite app_nil_r.
  - intros st st1 o st2 (a & Ha & Hfa) (b & Hb & Hfb). exists (a ++ b).
    rewrite Hb, Ha, app_assoc. split; [done|]. rewrite Ha in Hfb.
    destruct o as [[]|];
      try (by rewrite faults_app, Hfa, Hfb).
    destruct Hfb as (pre & u & -> & Hpre & Herr & ->).
    exists (a ++ pre), u. rewrite !app_assoc in *.
    by rewrite faults_app, Hfa, Hpre.
Qed.

(** A step that requests no article and raises no [HTTPError]. *)
Lemma faulted_no_fetch {A} (m : M A) :
  (∀ st, ∃ new, trace (m st).2 = trace st ++ new ∧ Forall no_fetch new
                ∧ ∀ c, (m st).1 ≠ Raise (HTTPError c)) →
  sat (Faulted web) m.
Proof.
  intros Hm st. destruct (Hm st) as (new & Htr & Hn & Hr). exists new.
  split; [done|]. destruct (m st) as [[a|[]] st1]; cbn in *;
    try (by apply faults_no_fetch).
  by destruct (Hr status).
Qed.

Lemma faulted_get_article_urls query :
  sat (Faulted web) (_get_article_urls web query).
Proof.
  apply faulted_no_fetch. intros st. rewrite _get_article_urls_run.
  destruct (driver st).
  - eexists. split; [done|]. split; [|done]. unfold search_events.
    destruct (cookie_button_clicked st); cbn; by repeat constructor.
  - exists []. by rewrite app_nil_r.
Qed.

Lemma faulted_retry_pop :
  sat (Faulted web) (emit (EvLog LogLongSleepQuery);; _long_sleep;; words_pop).
Proof.
  apply faulted_no_fetch. intros st. rewrite retry_pop_run. cbn zeta.
  destruct (pop (words st)) as [[q rest]|]; eexists;
    (split; [done|]); (split; [|done]); by repeat constructor.
Qed.

Lemma faulted_round_head track : sat (Faulted web) (round_head track).
Proof.
  apply faulted_no_fetch. intros st. rewrite round_head_run. cbn zeta.
  destruct (pop (words st)) as [[q rest]|]; eexists;
    (split; [done|]); (split; [|done]);
    destruct (_ >? 25); by repeat constructor.
Qed.

Lemma faulted_log line : sat (Faulted web) (emit (EvLog line)).
Proof.
  apply faulted_no_fetch. intros st. eexists. split; [done|].
  split; [|done]. by repeat constructor.
Qed.

Lemma faulted_scrape_article u : sat (Faulted web) (scrape_article web u).
Proof.
  intros st. rewrite scrape_article_run.
  destruct (bool_decide _); [apply seq_refl|].
  destruct (is_http_error _) eqn:Herr.
  { eexists. split; [done|]. cbn.
    exists [EvSleep (short_range (debug st))], u. by repeat split. }
  destruct (sample_of _ _) as [sample|]; eexists;
    (split; [cbn; by rewrite <- ?app_assoc|]); cbn.
  - unfold answer in Herr. rewrite Herr. cbn. apply faults_no_fetch.
    unfold save_events. cbn.
    destruct (dataset_file st); destruct (_ =? 0); by repeat constructor.
  - unfold answer in Herr. by rewrite Herr.
Qed.

Lemma faulted__scrape query : sat (Faulted web) (_scrape web query).
Proof.
  unfold _scrape. apply sat_bind; [apply _|apply faulted_get_article_urls|].
  intros [|u urls]; [apply sat_ret, _|].
  apply sat_bind; [apply _| |intros; apply sat_ret, _].
  apply sat_for_each; [apply _|]. apply faulted_scrape_article.
Qed.

Lemma faulted_scrape : sat (Faulted web) (scrape web).
Proof.
  apply sat_scrape;
    [apply _|apply faulted__scrape|apply faulted_retry_pop
    |apply faulted_round_head|intros; apply faulted_log].
Qed.

(** An error status anywhere in a faulted run is its last event. *)
Lemma faulted_last st o st' pre u post :
  Faulted web st o st' →
  trace st' = trace st ++ pre ++ EvSessionGet u :: post →
  is_http_error (http_get web (trace st ++ pre) u) = true →
  post = [] ∧ o = Some (HTTPError (status_code (http_get web (trace st ++ pre) u))).
Proof.
  intros (new & Htr & Hf) Htr' Herr. rewrite Htr in Htr'.
  apply app_inv_head in Htr'. subst new.
  assert (faults web (trace st) (pre ++ EvSessionGet u :: post) ≠ []) as Hne.
  { rewrite faults_app. cbn. rewrite Herr. by destruct (faults web _ pre). }
  destruct o as [[]|]; try done.
  destruct Hf as (pre0 & u0 & Heq & Hpre0 & Herr0 & ->).
  destruct post as [|ev post _] using rev_ind.
  - apply app_inj_tail in Heq as [-> [= ->]]. done.
  - rewrite app_comm_cons, app_assoc in Heq.
    apply app_inj_tail in Heq as [<- _].
    rewrite faults_app in Hpre0. cbn in Hpre0. rewrite Herr in Hpre0.
    by destruct (faults web _ pre).
Qed.

End Faults.

(** ** The loops, one round at a time *)

Section Unfold.
Context (web : Web).

Lemma scrape_retry_round query st :
  scrape_retry web query st =
  match _scrape web query st with
  | (Raise e, st1) => (Raise e, st1)
  | (Ok true, st1) => (Ok tt, st1)
  | (Ok false, st1) =>
      match (emit (EvLog LogLongSleepQuery);; _long_sleep;; words_pop) st1 with
      | (Raise e, st2) => (Raise e, st2)
      | (Ok query', st2) => scrape_retry web query' st2
      end
  end.
Proof.
  funelim (scrape_retry web query st); funelim_tidy; clear Heqcall;
    rewrite H1; try done; by rewrite H2.
Qed.

Lemma scrape_rounds_round track st :
  scrape_rounds web track st =
  if dataset_length st <? max_articles st
  then match round_head track st with
       | (Raise e, st1) => (Raise e, st1)
       | (Ok (track', query), st1) =>
           match scrape_retry web query st1 with
           | (Raise e, st2) => (Raise e, st2)
           | (Ok tt, st2) => scrape_rounds web track' st2
           end
       end
  else (Ok tt, st).
Proof.
  funelim (scrape_rounds web track st); funelim_tidy; clear Heqcall;
    rewrite Heq; try done; rewrite H1; try done; by rewrite H2.
Qed.

Lemma scrape_run st :
  scrape web st =
  match scrape_rounds web (dataset_length st) st with
  | (Ok tt, st1) =>
      (Ok tt, with_events [EvLog (LogDone (dataset_length st1))] st1)
  | (Raise e, st1) => (Raise e, st1)
  end.
Proof.
  unfold scrape. rewrite bind_run. cbn [get_state]. rewrite bind_run.
  by destruct (scrape_rounds _ _ _) as [[[]|e] st1].
Qed.

End Unfold.

(** ** A site with one new article for every query *)

Section OnePerQuery.
Context (web : Web) (pool : list Query) (url_of : Query → Url).
Context (Hsite : one_new_per_query web pool url_of).

Lemma _scrape_one q st :
  q ∈ pool → driver st = true → url_of q ∉ seen_urls st →
  ∃ st', _scrape web q st = (Ok true, st')
    ∧ dataset_length st' = dataset_length st + 1
    ∧ seen_urls st' = {[url_of q]} ∪ seen_urls st
    ∧ words st' = words st
    ∧ max_articles st' = max_articles st
    ∧ driver st' = true.
Proof.
  intros Hq Hdrv Hnew. unfold _scrape.
  rewrite bind_run, _get_article_urls_run, Hdrv, (one_url _ _ _ Hsite) by done.
  rewrite bind_run, for_each_cons, bind_run, scrape_article_run.
  cbn [seen_urls set_cookie_button_clicked with_events set_trace].
  rewrite bool_decide_eq_false_2 by done.
  destruct (one_valid _ _ _ Hsite
              (trace (set_cookie_button_clicked true
                        (with_events (search_events web q st) st)) ++
               [EvSleep (short_range (debug (set_cookie_button_clicked true
                        (with_events (search_events web q st) st))))])
              q Hq) as [Herr [sample Hs]].
  unfold answer. rewrite Herr, Hs. cbn [for_each mret M_ret].
  eexists. split; [done|]. by cbn.
Qed.

Lemma rounds_one drawn rest st track :
  (∀ q, q ∈ drawn → q ∈ pool) → NoDup drawn →
  words st = rest ++ reverse drawn →
  max_articles st = dataset_length st + Z.of_nat (length drawn) →
  driver st = true →
  (∀ q, q ∈ drawn → url_of q ∉ seen_urls st) →
  ∃ st', scrape_rounds web track st = (Ok tt, st')
    ∧ dataset_length st' = max_articles st
    ∧ max_articles st' = max_articles st
    ∧ words st' = rest.
Proof.
  revert st track.
  induction drawn as [|q drawn IH]; intros st track Hpool Hnd Hw Hmax Hdrv Hnew.
  - rewrite scrape_rounds_round.
    destruct (Z.ltb_spec (dataset_length st) (max_articles st));
      [cbn in Hmax; lia|].
    exists st. cbn in *. rewrite app_nil_r in Hw. repeat split; [lia|done].
  - rewrite scrape_rounds_round.
    destruct (Z.ltb_spec (dataset_length st) (max_articles st));
      [|cbn in Hmax; lia].
    rewrite round_head_run. cbn zeta.
    rewrite reverse_cons, app_assoc in Hw.
    rewrite (proj2 (pop_Some _ _ _) Hw).
    apply NoDup_cons in Hnd as [Hq Hnd].
    set (st1 := with_events _ (set_words _ st)).
    destruct (_scrape_one q st1) as (st2 & Hs & Hlen & Hseen & Hw2 & Hmax2 & Hdrv2).
    { apply Hpool. by left. }
    { done. }
    { apply Hnew. by left. }
    rewrite scrape_retry_round, Hs.
    destruct (IH st2 (if dataset_length st - track >? 25
                      then dataset_length st else track))
      as (st' & Hr & Hlen' & Hmax' & Hw').
    + intros q' Hq'. apply Hpool. by right.
    + done.
    + by rewrite Hw2.
    + rewrite Hmax2, Hlen. cbn in *. lia.
    + done.
    + intros q' Hq'. rewrite Hseen. cbn.
      rewrite not_elem_of_union, not_elem_of_singleton. split.
      * intros Heq. apply (one_inj _ _ _ Hsite) in Heq;
          [by subst|apply Hpool; by right|apply Hpool; by left].
      * apply Hnew. by right.
    + exists st'. rewrite Hr. subst st1. cbn in *.
      repeat split; try done; lia.
Qed.

End OnePerQuery.

(** ** The last batch of a crawl *)

Section LastBatch.
Context (web : Web).






End LastBatch.

(** ** Reading the monitors *)

Lemma polite_spec seen new seen' :
  monitor polite_step seen new = Some seen' →
  Forall has_url (appended new)
  ∧ seen' = seen ∪ list_to_set (urls_of (appended new))
  ∧ NoDup (urls_of (appended new))
  ∧ ∀ u, u ∈ urls_of (appended new) → u ∉ seen.
Proof.
  revert seen. induction new as [|ev new IH]; intros seen.
  - intros [= <-]. cbn. repeat split; [constructor|set_solver|constructor|].
    by intros u ?%elem_of_nil.
  - rewrite appended_cons. cbn [monitor].
    destruct ev; cbn [polite_step]; try apply IH.
    + destruct (bool_decide _); [done|apply IH].
    + destruct (sample !! k_url) as [u|] eqn:Hu; [|done].
      destruct (bool_decide (u ∈ seen)) eqn:Hseen; [done|].
      apply bool_decide_eq_false in Hseen.
      intros (Hall & -> & Hnd & Hnew)%IH.
      rewrite (urls_of_cons _ _ _ Hu). repeat split.
      * constructor; [by exists u|done].
      * set_solver.
      * constructor; [|done]. intros Hin. apply Hnew in Hin. set_solver.
      * intros u' [->|Hin]%elem_of_cons; [done|]. apply Hnew in Hin.
        set_solver.
Qed.

Lemma polite_fetch seen pre u post seen' :
  monitor polite_step seen (pre ++ EvSessionGet u :: post) = Some seen' →
  (u ∉ seen) ∧ (u ∉ urls_of (appended pre)).
Proof.
  rewrite monitor_app.
  destruct (monitor polite_step seen pre) as [s1|] eqn:Hpre; [|done].
  apply polite_spec in Hpre as (_ & -> & _ & _). cbn.
  destruct (bool_decide _) eqn:Hu; [done|]. intros _.
  apply bool_decide_eq_false in Hu. set_solver.
Qed.

Lemma quota_count max count new count' :
  monitor (quota_step max) count new = Some count' →
  count' = count + Z.of_nat (length (appended new)).
Proof.
  revert count. induction new as [|ev new IH]; intros count.
  - intros [= <-]. cbn. lia.
  - rewrite appended_cons. cbn [monitor].
    destruct ev; cbn [quota_step]; try apply IH.
    + destruct (_ <? _); [apply IH|done].
    + intros ->%IH. cbn [length]. lia.
Qed.

Lemma quota_pop max count pre q post count' :
  monitor (quota_step max) count (pre ++ EvPop q :: post) = Some count' →
  count + Z.of_nat (length (appended pre)) < max.
Proof.
  rewrite monitor_app.
  destruct (monitor (quota_step max) count pre) as [c1|] eqn:Hpre; [|done].
  apply quota_count in Hpre as ->. cbn.
  by destruct (Z.ltb_spec (count + Z.of_nat (length (appended pre))) max).
Qed.







(** ** An empty pool *)

#[export] Instance Exhausted_sequential : Sequential Exhausted.
Proof. split; [done|]. intros st st1 o st2 _ H. exact H. Qed.

Section Exhaustion.
Context (web : Web).

Lemma exhausted__scrape query : sat Exhausted (_scrape web query).
Proof.
  intros st Ho. destruct (inner__scrape web query st) as [Hne _]. done.
Qed.

Lemma exhausted_retry_pop :
  sat Exhausted (emit (EvLog LogLongSleepQuery);; _long_sleep;; words_pop).
Proof.
  intros st. rewrite retry_pop_run. cbn zeta.
  destruct (pop (words st)) as [[q rest]|] eqn:Hp; [done|].
  intros _. by apply pop_None in Hp.
Qed.

Lemma exhausted_round_head track : sat Exhausted (round_head track).
Proof.
  intros st. rewrite round_head_run. cbn zeta.
  destruct (pop (words st)) as [[q rest]|] eqn:Hp; [done|].
  intros _. by apply pop_None in Hp.
Qed.

Lemma exhausted_scrape : sat Exhausted (scrape web).
Proof.
  apply sat_scrape;
    [apply _|apply exhausted__scrape|apply exhausted_retry_pop
    |apply exhausted_round_head|done].
Qed.

Lemma scrape_disciplined st :
  ∃ new batch',
    disciplined st 0 new (scrape web st).1 (scrape web st).2 batch'
    ∧ ((scrape web st).1 = Ok tt →
       max_articles st ≤ dataset_length (scrape web st).2
       ∧ ∃ pre, new = pre ++ [EvLog (LogDone (dataset_length (scrape web st).2))]).
Proof.
  rewrite scrape_run.
  destruct (rounds_disciplined web (dataset_length st) st)
    as (new & batch' & Hd & Hdone).
  rewrite Z.sub_diag in Hd.
  destruct (scrape_rounds web (dataset_length st) st) as [[[]|e] st1];
    cbn [fst snd] in *.
  - exists (new ++ [EvLog (LogDone (dataset_length st1))]), batch'. split.
    + eapply disciplined_trans; [done|].
      split; [apply (advances_quiet [_]); by repeat constructor|done| |done].
      by exists false.
    + intros _. split; [by apply Hdone|by exists new].
  - by exists new, batch'.
Qed.

End Exhaustion.

(** ** Whole crawls *)

Lemma one_per_query_site pool :
  one_new_per_query one_per_query pool (λ q, site_prefix ++ py "/" ++ q).
Proof.
  split.
  - done.
  - intros q1 q2 _ _ Heq. by do 2 apply app_inv_head in Heq.
  - intros hist q _. split; [done|by eexists].
Qed.

(** On a site with one new article per query, an entered scraper without
    dataset file whose quota is the number of words in [drawn] draws
    exactly those words, last first, and writes one record for each. *)
Lemma scrape_one_per_query web url_of rest drawn dbg :
  one_new_per_query web (rest ++ drawn) url_of → NoDup drawn →
  let run := scrape web (entered (Z.of_nat (length drawn)) dbg (rest ++ drawn)) in
  run.1 = Ok tt
  ∧ length (appended (trace run.2)) = length drawn
  ∧ popped (trace run.2) = reverse drawn
  ∧ words run.2 = rest
  ∧ dataset_length run.2 = Z.of_nat (length drawn).
Proof.
  intros Hsite Hnd run.
  set (st := entered (Z.of_nat (length drawn)) dbg (rest ++ drawn)) in *.
  destruct (rounds_one web (rest ++ drawn) url_of Hsite (reverse drawn) rest st 0)
    as (st' & Hr & Hlen & Hmax & Hw).
  - intros q Hq. rewrite elem_of_reverse in Hq. set_solver.
  - by rewrite reverse_Permutation.
  - by rewrite reverse_involutive.
  - cbn. by rewrite length_reverse.
  - done.
  - intros q _. cbn. set_solver.
  - destruct (adv_scrape web st) as [new Hadv]. fold run in Hadv.
    assert (run = (Ok tt, with_events [EvLog (LogDone (dataset_length st'))] st'))
      as Hrun.
    { unfold run. rewrite scrape_run. change (dataset_length st) with 0.
      by rewrite Hr. }
    rewrite Hrun in *. cbn [fst snd] in *.
    pose proof (adv_trace _ _ _ Hadv) as Htr.
    pose proof (adv_length _ _ _ Hadv) as Hcount.
    pose proof (adv_words _ _ _ Hadv) as Hwords.
    cbn in Htr, Hcount, Hwords. rewrite Hw in Hwords.
    apply app_inv_head in Hwords.
    change (max_articles st) with (Z.of_nat (length drawn)) in Hlen.
    assert (trace (with_events [EvLog (LogDone (dataset_length st'))] st')
            = new) as -> by exact Htr.
    change (words (with_events ?e st')) with (words st').
    change (dataset_length (with_events ?e st')) with (dataset_length st').
    split; [done|]. split; [lia|]. split; [|split; [done|lia]].
    by rewrite Hwords, reverse_involutive.
Qed.





(** [entered] is what the constructor and [__enter__] make without a
    dataset file, and [main] runs [scrape] from there. *)
Lemma entered_constructed max_articles debug pool :
  ∃ st0, __init__ None max_articles debug pool = (Ok tt, st0)
         ∧ __enter__ st0 = (Ok tt, entered max_articles debug pool).
Proof. by eexists. Qed.

Lemma main_entered web max_articles debug pool :
  main web None max_articles debug pool =
  ((scrape web (entered max_articles debug pool)).1,
   (__exit__ (scrape web (entered max_articles debug pool)).2).2).
Proof.
  unfold main.
  change (__init__ None max_articles debug pool)
    with (Ok tt, mkState false false debug max_articles 0 ∅ pool None []).
  cbn iota. rewrite bind_run. cbn [__enter__ modify].
  change (set_driver true _) with (entered max_articles debug pool).
  by destruct (scrape web (entered max_articles debug pool)).
Qed.

(** * The claims *)

Section Claims.
Import DatasetBuilder.

(** C1. Recovery at construction. Without a dataset file the scraper
    starts with count 0 and an empty seen set. With a file whose records
    all carry a url, as every record written by [_save_sample] does, the
    constructor returns with the count equal to the number of records and
    the seen set equal to the set of their urls, and it leaves the file as
    it found it. *)
Theorem C1_recovery max_articles debug shuffled :
  (∃ st, __init__ None max_articles debug shuffled = (Ok tt, st)
     ∧ dataset_length st = 0 ∧ seen_urls st = ∅ ∧ dataset_file st = None)
  ∧ (∀ records, Forall has_url records →
       ∃ st, __init__ (Some records) max_articles debug shuffled = (Ok tt, st)
         ∧ dataset_length st = Z.of_nat (length records)
         ∧ seen_urls st = list_to_set (urls_of records)
         ∧ dataset_file st = Some records).
Proof.
  split.
  - eexists. split; [done|]. by cbn.
  - intros records Hurls. unfold __init__, _get_dataset_info.
    rewrite bind_run, bind_run. cbn [get_state dataset_file].
    destruct (recovery_loop records
                (mkState false false debug max_articles 0 ∅ [] (Some records) [])
                Hurls)
      as (st & -> & Hlen & Hseen & Hfile & _).
    eexists. split; [done|]. cbn in *. rewrite Hlen, Hseen, Hfile.
    split; [lia|]. split; [|done]. by rewrite (right_id_L ∅ (∪)).
Qed.

Lemma C1_recovery_witness :
  Forall has_url dedup_example_input
  ∧ ∃ st, __init__ (Some dedup_example_input) 10 false [] = (Ok tt, st)
      ∧ dataset_length st = 4
      ∧ seen_urls st = list_to_set (urls_of dedup_example_input)
      ∧ dataset_file st = Some dedup_example_input.
Proof.
  assert (Forall has_url dedup_example_input) as Hurls.
  { repeat constructor; by eexists. }
  split; [exact Hurls|].
  exact (proj2 (C1_recovery 10 false []) dedup_example_input Hurls).
Defined.

(** C3. Title deduplication at export. [_ignore_duplicates] keeps the
    sample at index [i] exactly when its title, trimmed of whitespace, is
    not empty and differs from the trimmed title of every sample before
    it: the first occurrence of each non-empty trimmed title stays, in
    storage order, and later samples with that title and samples with an
    empty trimmed title go. On the example of the specification it returns
    the samples a and d, and reports 2 removed and 2 kept. *)
Theorem C3_title_dedup :
  (∀ samples, _ignore_duplicates samples = keep_first_titles samples)
  ∧ _ignore_duplicates dedup_example_input = dedup_example_output
  ∧ report dedup_example_input = (2, 2).
Proof.
  split; [|split; by vm_compute].
  apply ignore_duplicates_first_titles.
Qed.

(** C10. Validation at crawl time looks at text and summary only: for an
    answer without an error status [_get_article_data] returns a sample
    exactly when text and summary are both non-empty, whatever the title,
    and the sample carries the title as it was extracted, empty or not;
    otherwise it returns [None]. An unseen article whose title extraction
    gives the empty string (no title element, or an empty one) is written
    to the file with ["title": ""]; [_ignore_duplicates] never keeps such
    a record. *)
Theorem C10_empty_title_persisted :
  (∀ web u st,
     is_http_error (answer web u st) = false →
     (_get_article_data web u st).1
     = Ok (if bool_decide (_get_text (soup (answer web u st)) ≠ []
                           ∧ _get_summary (soup (answer web u st)) ≠ [])
           then Some (mk_sample u (_get_title (soup (answer web u st)))
                        (_get_summary (soup (answer web u st)))
                        (_get_text (soup (answer web u st))))
           else None))
  ∧ (∀ web u st,
       u ∉ seen_urls st →
       is_http_error (answer web u st) = false →
       _get_title (soup (answer web u st)) = [] →
       _get_text (soup (answer web u st)) ≠ [] →
       _get_summary (soup (answer web u st)) ≠ [] →
       ∃ sample st', scrape_article web u st = (Ok tt, st')
         ∧ records_of st' = records_of st ++ [sample]
         ∧ sample !! k_url = Some u
         ∧ sample !! k_title = Some [])
  ∧ (∀ (sample : Sample) samples,
       sample !! k_title = Some [] → sample ∉ _ignore_duplicates samples).
Proof.
  split; [|split].
  - intros web u st Herr. rewrite _get_article_data_run. cbn zeta.
    fold (answer web u st). rewrite Herr. unfold sample_of.
    destruct (truthy (_get_text _)) eqn:Ht, (truthy (_get_summary _)) eqn:Hs;
      cbn [negb orb fst].
    + apply truthy_nonempty in Ht, Hs. by rewrite bool_decide_eq_true_2.
    + rewrite bool_decide_eq_false_2; [done|]. intros [_ H].
      apply truthy_nonempty in H. congruence.
    + rewrite bool_decide_eq_false_2; [done|]. intros [H _].
      apply truthy_nonempty in H. congruence.
    + rewrite bool_decide_eq_false_2; [done|]. intros [H _].
      apply truthy_nonempty in H. congruence.
  - intros web u st Hnew Herr Htitle Htext Hsum.
    apply truthy_nonempty in Htext, Hsum.
    rewrite scrape_article_run, bool_decide_eq_false_2, Herr by done.
    unfold sample_of. rewrite Htext, Hsum, Htitle. cbn [negb orb].
    do 2 eexists. split; [done|]. split; [done|].
    split; [apply mk_sample_url|]. unfold mk_sample.
    by rewrite lookup_insert_ne, lookup_insert_eq.
  - intros sample samples Ht Hin.
    rewrite ignore_duplicates_first_titles in Hin.
    unfold keep_first_titles in Hin.
    apply list_elem_of_omap in Hin as (i & _ & Hi).
    unfold first_occurrence in Hi.
    destruct (samples !! i) as [s|]; [|done]. cbn in Hi.
    destruct (decide _) as [[Hne _]|]; [|done]. injection Hi as ->.
    apply Hne. unfold title_of, get_or_empty. by rewrite Ht.
Qed.

Lemma C10_empty_title_persisted_witness :
  let u := py "https://www.lrytas.lt/x" in
  let st := entered 5 false [] in
  (_get_article_data untitled_site u st).1
  = Ok (Some (mk_sample u [] (py "Lead") (py "Body text")))
  ∧ ∃ sample st', scrape_article untitled_site u st = (Ok tt, st')
      ∧ records_of st' = records_of st ++ [sample]
      ∧ sample !! k_url = Some u
      ∧ sample !! k_title = Some [].
Proof.
  intros u st. split.
  - by rewrite (proj1 C10_empty_title_persisted untitled_site u st)
      by (by vm_compute).
  - apply (proj1 (proj2 C10_empty_title_persisted) untitled_site u st);
      by vm_compute.
Defined.

(** C2. No url is written twice. From any state in which count and seen
    set agree with the file (as after recovery), a run of [scrape],
    whether it returns or raises, only appends records to the file; the
    urls of the records it appends are pairwise different and none of them
    was in the file before; an article is requested only when its url is
    neither in the seen set at the start nor among the records written
    earlier in the run; every record written adds its url to the seen set;
    and count and seen set agree with the file again at the end. *)
Theorem C2_no_url_twice web st :
  consistent st →
  ∃ new,
    trace (scrape web st).2 = trace st ++ new
    ∧ records_of (scrape web st).2 = records_of st ++ appended new
    ∧ consistent (scrape web st).2
    ∧ NoDup (urls_of (appended new))
    ∧ (∀ u, u ∈ urls_of (appended new) → u ∉ urls_of (records_of st))
    ∧ (NoDup (urls_of (records_of st)) →
       NoDup (urls_of (records_of (scrape web st).2)))
    ∧ seen_urls (scrape web st).2
      = seen_urls st ∪ list_to_set (urls_of (appended new))
    ∧ (∀ pre u post, new = pre ++ EvSessionGet u :: post →
         (u ∉ seen_urls st) ∧ (u ∉ urls_of (appended pre))).
Proof.
  intros (Hlen & Hseen & Hurls).
  destruct (adv_scrape web st) as [new Hadv]. exists new.
  destruct Hadv as [Htr _ _ _ Hpol Hfile Hcount _ _].
  pose proof (polite_spec _ _ _ Hpol) as (Hall & Hseen' & Hnd & Hnew).
  assert (∀ u, u ∈ urls_of (appended new) → u ∉ urls_of (records_of st))
    as Hfresh.
  { intros u Hu%Hnew. rewrite Hseen in Hu. set_solver. }
  split; [done|]. split; [done|]. split; [|split; [done|split; [done|]]].
  - split; [|split].
    + rewrite Hcount, Hfile, length_app. lia.
    + rewrite Hseen', Hseen, Hfile, urls_of_app. set_solver.
    + rewrite Hfile. by apply Forall_app.
  - split; [|split; [done|]].
    + intros Hnd0. rewrite Hfile, urls_of_app. apply NoDup_app.
      split; [done|]. split; [|done]. intros u Hu Hu'. by apply Hfresh in Hu'.
    + intros pre u post ->. by eapply polite_fetch.
Qed.

Lemma C2_no_url_twice_witness :
  let st := resumed 6 false (numbered_words 5) in
  ∃ new,
    trace (scrape one_per_query st).2 = trace st ++ new
    ∧ records_of (scrape one_per_query st).2 = records_of st ++ appended new
    ∧ consistent (scrape one_per_query st).2
    ∧ NoDup (urls_of (appended new))
    ∧ (∀ u, u ∈ urls_of (appended new) → u ∉ urls_of (records_of st))
    ∧ (NoDup (urls_of (records_of st)) →
       NoDup (urls_of (records_of (scrape one_per_query st).2)))
    ∧ seen_urls (scrape one_per_query st).2
      = seen_urls st ∪ list_to_set (urls_of (appended new))
    ∧ (∀ pre u post, new = pre ++ EvSessionGet u :: post →
         (u ∉ seen_urls st) ∧ (u ∉ urls_of (appended pre))).
Proof.
  intros st. apply (C2_no_url_twice one_per_query st).
  split; [by vm_compute|]. split; [by vm_compute|].
  repeat constructor; by eexists.
Defined.

(** C7. The query source. [pop] takes the last word of the pool and
    leaves the words before it; on an empty pool it fails. In a run of
    [scrape] the pool at the start is the pool at the end followed by the
    queries drawn, last drawn first, so every draw shortened the pool by
    its last word; when the pool holds no word twice, no query is drawn
    twice. [IndexError] comes out of [scrape] only with the pool empty and
    the count still below [max_articles], and from an empty pool with the
    count below [max_articles] it always does. *)
Theorem C7_query_source web st :
  (∀ (pool : list Query) query, pop (pool ++ [query]) = Some (query, pool))
  ∧ pop ([] : list Query) = None
  ∧ ∃ new,
      trace (scrape web st).2 = trace st ++ new
      ∧ words st = words (scrape web st).2 ++ reverse (popped new)
      ∧ (NoDup (words st) → NoDup (popped new))
      ∧ ((scrape web st).1 = Raise IndexError →
         words (scrape web st).2 = []
         ∧ dataset_length (scrape web st).2 < max_articles st)
      ∧ (words st = [] → dataset_length st < max_articles st →
         (scrape web st).1 = Raise IndexError).
Proof.
  split; [|split].
  - intros pool query. by apply pop_Some.
  - done.
  - destruct (scrape_disciplined web st) as (new & batch' & Hd & _).
    exists new. destruct Hd as [Hadv _ _ Hex].
    split; [apply Hadv|]. split; [apply Hadv|]. split; [|split].
    + rewrite (adv_words _ _ _ Hadv). intros [_ [_ Hnd]]%NoDup_app.
      by rewrite reverse_Permutation in Hnd.
    + intros Hr. split; [|by apply Hex].
      apply (exhausted_scrape web st). by rewrite Hr.
    + intros Hw Hlt. rewrite scrape_run, scrape_rounds_round.
      apply Z.ltb_lt in Hlt. rewrite Hlt, round_head_run. cbn zeta.
      by rewrite (proj2 (pop_None _) Hw).
Qed.

Lemma C7_query_source_witness :
  let st := entered 3 false [] in
  words st = [] ∧ dataset_length st < max_articles st
  ∧ (scrape one_per_query st).1 = Raise IndexError.
Proof.
  intros st. split; [done|]. split; [done|].
  destruct (C7_query_source one_per_query st) as (_ & _ & new & H).
  by apply H.
Defined.



(** C6, as the code has it. No method of the scraper catches the
    exception of [raise_for_status]: when an article is answered with an
    error status, that request is the last event of the run and [scrape]
    ends with the [HTTPError] of that status. No long sleep follows and no
    further query is drawn; the crawl stops. *)
Theorem C6_fetch_error_ends_crawl web st pre u post :
  trace (scrape web st).2 = trace st ++ pre ++ EvSessionGet u :: post →
  is_http_error (http_get web (trace st ++ pre) u) = true →
  post = []
  ∧ (scrape web st).1
    = Raise (HTTPError (status_code (http_get web (trace st ++ pre) u))).
Proof.
  intros Htr Herr.
  destruct (faulted_last web _ _ _ _ _ _ (faulted_scrape web st) Htr Herr)
    as [-> Ho].
  split; [done|]. by destruct (scrape web st).1 as [[]|e]; simplify_eq/=.
Qed.

Lemma C6_fetch_error_ends_crawl_witness :
  let st := entered 3 false (numbered_words 5) in
  let pre := [EvPop [4%N]; EvDriverGet [4%N]; EvSleep (30, 60)%Q;
              EvCookieClick; EvLog LogClicked; EvSleep (30, 60)%Q] in
  let u := py "https://www.lrytas.lt/" ++ [4%N] in
  (scrape failing_site st).1 = Raise (HTTPError 500)
  ∧ trace (scrape failing_site st).2 = pre ++ [EvSessionGet u].
Proof.
  intros st pre u.
  destruct (C6_fetch_error_ends_crawl failing_site st pre u []) as [_ Hr];
    [by vm_compute|by vm_compute|].
  split; [exact Hr|by vm_compute].
Defined.

(** C6, as the specification words it, fails: after an article answered
    with status 500 there is no long sleep and no next query, although
    the pool still has words and the count is below [max_articles]. *)
Lemma C6_no_backoff_after_fault :
  ¬ fault_backs_off failing_site false
      (crawl failing_site 3 false (numbered_words 5)).
Proof.
  intros Hclaim.
  destruct (Hclaim
              [EvPop [4%N]; EvDriverGet [4%N]; EvSleep (30, 60)%Q;
               EvCookieClick; EvLog LogClicked; EvSleep (30, 60)%Q]
              (py "https://www.lrytas.lt/" ++ [4%N]) [])
    as (query & post' & Heq); [by vm_compute|by vm_compute|done].
Qed.

(** C4. Normal termination. In every run of [scrape] a query is drawn
    only while the count is below [max_articles]; when [scrape] returns,
    the count has reached [max_articles] and the last event is the log line
    of the final count. On a site with one new valid article per query, a
    fresh scraper whose quota is n (3 in the specification's example) and
    whose pool ends with the n different words [drawn] returns after
    exactly n records and n queries, the last n words of the pool, and
    leaves the rest of the pool untouched. *)
Theorem C4_normal_termination :
  (∀ web st, ∃ new,
     trace (scrape web st).2 = trace st ++ new
     ∧ (∀ pre query post, new = pre ++ EvPop query :: post →
          dataset_length st + Z.of_nat (length (appended pre))
          < max_articles st)
     ∧ ((scrape web st).1 = Ok tt →
        max_articles st ≤ dataset_length (scrape web st).2
        ∧ ∃ pre, new = pre ++ [EvLog (LogDone (dataset_length (scrape web st).2))]))
  ∧ (∀ web url_of rest drawn dbg,
       one_new_per_query web (rest ++ drawn) url_of → NoDup drawn →
       let run :=
         scrape web (entered (Z.of_nat (length drawn)) dbg (rest ++ drawn)) in
       run.1 = Ok tt
       ∧ length (appended (trace run.2)) = length drawn
       ∧ popped (trace run.2) = reverse drawn
       ∧ words run.2 = rest
       ∧ dataset_length run.2 = Z.of_nat (length drawn)).
Proof.
  split; [|apply scrape_one_per_query].
  intros web st.
  destruct (scrape_disciplined web st) as (new & batch' & Hd & Hdone).
  exists new. split; [apply Hd|]. split; [|done].
  intros pre query post ->. eapply quota_pop. apply Hd.
Qed.

Lemma C4_normal_termination_witness :
  let drawn := [[2%N]; [3%N]; [4%N]] in
  let run := scrape one_per_query (entered 3 false ([[0%N]; [1%N]] ++ drawn)) in
  run.1 = Ok tt
  ∧ length (appended (trace run.2)) = 3%nat
  ∧ popped (trace run.2) = [[4%N]; [3%N]; [2%N]]
  ∧ words run.2 = [[0%N]; [1%N]]
  ∧ dataset_length run.2 = 3.
Proof.
  intros drawn.
  apply (proj2 C4_normal_termination one_per_query
           (λ q, site_prefix ++ py "/" ++ q) [[0%N]; [1%N]] drawn false).
  - apply one_per_query_site.
  - apply (bool_decide_unpack _). by vm_compute.
Defined.





End Claims.

(** * Further properties *)

(** ** More on title deduplication *)

Section DedupMore.
Import DatasetBuilder.

(** What the loop of [_ignore_duplicates] keeps, from any [seen_titles]. *)
Lemma ignore_loop_cons seen s rest :
  ignore_loop seen [] (s :: rest) =
  if truthy (title_of s) && bool_decide (title_of s ∉ seen)
  then s :: ignore_loop ({[title_of s]} ∪ seen) [] rest
  else ignore_loop seen [] rest.
Proof.
  cbn [ignore_loop]. destruct (_ && _); [|done].
  by rewrite ignore_loop_acc.
Qed.

Lemma ignore_loop_sublist seen samples :
  ignore_loop seen [] samples `sublist_of` samples.
Proof.
  revert seen. induction samples as [|s rest IH]; intros seen; [done|].
  rewrite ignore_loop_cons. destruct (_ && _).
  - by apply sublist_skip.
  - by apply sublist_cons.
Qed.

Lemma ignore_loop_titles seen samples t :
  t ∈ title_of <$> ignore_loop seen [] samples ↔
  t ≠ [] ∧ t ∉ seen ∧ t ∈ title_of <$> samples.
Proof.
  revert seen. induction samples as [|s rest IH]; intros seen.
  - cbn. rewrite elem_of_nil. tauto.
  - rewrite ignore_loop_cons, fmap_cons, (elem_of_cons _ t (title_of s)).
    destruct (truthy (title_of s)) eqn:Ht; cbn [andb].
    + apply truthy_nonempty in Ht.
      destruct (bool_decide _) eqn:Hs.
      * apply bool_decide_eq_true in Hs.
        rewrite fmap_cons, elem_of_cons, IH, not_elem_of_union,
          not_elem_of_singleton.
        destruct (decide (t = title_of s)) as [->|]; tauto.
      * apply bool_decide_eq_false in Hs. rewrite IH.
        destruct (decide (t = title_of s)) as [->|]; [|tauto].
        split; [tauto|]. intros (_ & Hn & _). destruct Hs. done.
    + assert (title_of s = []) as He.
      { destruct (title_of s); [done|discriminate]. }
      rewrite IH, He. split; [tauto|]. intros (?&?&[?|?]); [congruence|done].
Qed.

Lemma ignore_loop_NoDup seen samples :
  NoDup (title_of <$> ignore_loop seen [] samples).
Proof.
  revert seen. induction samples as [|s rest IH]; intros seen.
  - constructor.
  - rewrite ignore_loop_cons. destruct (_ && _); [|apply IH].
    rewrite fmap_cons. constructor; [|apply IH].
    rewrite ignore_loop_titles, not_elem_of_union, not_elem_of_singleton.
    tauto.
Qed.

(** A list whose trimmed titles are non-empty, pairwise different and not
    in [seen_titles] passes the loop unchanged. *)
Lemma ignore_loop_fixed seen samples :
  NoDup (title_of <$> samples) →
  (∀ t, t ∈ title_of <$> samples → t ≠ [] ∧ t ∉ seen) →
  ignore_loop seen [] samples = samples.
Proof.
  revert seen. induction samples as [|s rest IH]; intros seen Hnd Ht; [done|].
  rewrite fmap_cons in Hnd, Ht. apply NoDup_cons in Hnd as [Hs Hnd].
  rewrite ignore_loop_cons.
  destruct (Ht (title_of s)) as [Hne Hseen]; [by left|].
  rewrite (proj2 (truthy_nonempty _) Hne), bool_decide_eq_true_2 by done.
  cbn [andb]. f_equal. apply IH; [done|].
  intros t Hin. destruct (Ht t) as [? ?]; [by right|].
  split; [done|]. rewrite not_elem_of_union, not_elem_of_singleton.
  split; [|done]. by intros ->.
Qed.

(** Titles already seen only filter the result. *)
Lemma ignore_loop_filter (S seen : gset (list N)) samples :
  ignore_loop (S ∪ seen) [] samples =
  filter (λ s, title_of s ∉ S) (ignore_loop seen [] samples).
Proof.
  revert seen. induction samples as [|s rest IH]; intros seen; [done|].
  rewrite !ignore_loop_cons.
  destruct (truthy (title_of s)) eqn:Ht; cbn [andb]; [|apply IH].
  destruct (decide (title_of s ∈ seen)) as [Hin|Hout].
  { rewrite !bool_decide_eq_false_2; [apply IH|tauto|].
    rewrite elem_of_union. tauto. }
  rewrite (bool_decide_eq_true_2 (title_of s ∉ seen)) by done.
  destruct (decide (title_of s ∈ S)) as [HS|HS].
  - rewrite bool_decide_eq_false_2 by (rewrite elem_of_union; tauto).
    rewrite filter_cons_False by tauto.
    rewrite <- IH. f_equal.
    apply set_eq. intros x.
    rewrite !elem_of_union, elem_of_singleton.
    split; [tauto|]. intros [?|[->|?]]; tauto.
  - rewrite bool_decide_eq_true_2 by (rewrite elem_of_union; tauto).
    rewrite filter_cons_True by done. f_equal.
    rewrite <- IH. f_equal.
    apply set_eq. intros x. rewrite !elem_of_union, elem_of_singleton. tauto.
Qed.

Lemma first_occurrence_app_l a b i :
  (i < length a)%nat →
  first_occurrence (a ++ b) i = first_occurrence a i.
Proof.
  intros Hi. unfold first_occurrence.
  rewrite lookup_app_l by done. by rewrite take_app_le by lia.
Qed.

Lemma titles_seen_list a :
  titles_seen (list_to_set (title_of <$> a) ∪ ∅) a.
Proof.
  intros t _. rewrite elem_of_union, elem_of_list_to_set, elem_of_empty. tauto.
Qed.

Lemma omap_ext_in {A B} (f g : A → option B) (l : list A) :
  (∀ x, x ∈ l → f x = g x) → omap f l = omap g l.
Proof.
  induction l as [|x l IH]; intros H; [done|].
  rewrite !omap_cons_match, (H x) by (by left).
  rewrite IH; [done|]. intros y Hy. apply H. by right.
Qed.

Lemma ignore_duplicates_app a b :
  _ignore_duplicates (a ++ b) =
  _ignore_duplicates a ++
  filter (λ s, title_of s ∉ title_of <$> a) (_ignore_duplicates b).
Proof.
  rewrite (ignore_duplicates_first_titles (a ++ b)),
    (ignore_duplicates_first_titles a).
  unfold keep_first_titles.
  rewrite length_app, seq_app, omap_app. f_equal.
  - apply omap_ext_in. intros i Hi. apply elem_of_seq in Hi.
    apply first_occurrence_app_l. lia.
  - cbn [Nat.add].
    rewrite <- (ignore_loop_first_occurrences _ a b (titles_seen_list a)).
    unfold _ignore_duplicates. rewrite ignore_loop_filter.
    apply list_filter_iff. intros s. by rewrite elem_of_list_to_set.
Qed.

(** [_ignore_duplicates] changes nothing the second time. *)
Lemma ignore_duplicates_fixed samples :
  NoDup (title_of <$> samples) → [] ∉ title_of <$> samples →
  _ignore_duplicates samples = samples.
Proof.
  intros Hnd Hne. apply ignore_loop_fixed; [done|].
  intros t Ht. split; [by intros ->|apply not_elem_of_empty].
Qed.


(** [str.strip] and padding. *)

Lemma lstrip_blank ws s : blank ws → lstrip (ws ++ s) = lstrip s.
Proof.
  induction 1 as [|c ws Hc _ IH]; [done|]. cbn. by rewrite Hc.
Qed.

Lemma lstrip_app_blank s ws :
  blank ws →
  lstrip (s ++ ws) = match lstrip s with [] => [] | _ => lstrip s ++ ws end.
Proof.
  intros Hws. induction s as [|c s IH]; cbn.
  - rewrite <- (app_nil_r ws). by rewrite lstrip_blank.
  - destruct (isspace c); [apply IH|done].
Qed.

Lemma rstrip_blank s ws : blank ws → rstrip (s ++ ws) = rstrip s.
Proof.
  intros Hws. unfold rstrip. rewrite rev_app_distr, lstrip_blank; [done|].
  unfold blank. rewrite rev_alt. by apply (Forall_reverse _ ws).
Qed.

Lemma strip_padded ws1 t ws2 :
  blank ws1 → blank ws2 → strip (ws1 ++ t ++ ws2) = strip t.
Proof.
  intros H1 H2. unfold strip.
  rewrite lstrip_blank, lstrip_app_blank by done.
  destruct (lstrip t) eqn:Ht; [done|]. by rewrite rstrip_blank.
Qed.

Lemma title_of_lookup (sample : Sample) title :
  sample !! k_title = Some title → title_of sample = strip title.
Proof. intros H. unfold title_of, get_or_empty. by rewrite H. Qed.

Lemma title_of_missing (sample : Sample) :
  sample !! k_title = None → title_of sample = [].
Proof. intros H. unfold title_of, get_or_empty. by rewrite H. Qed.

End DedupMore.

Section DedupExtras.
Import DatasetBuilder.

(** X1. [_ignore_duplicates] is idempotent: deduplicating an already
    deduplicated list returns it unchanged. *)
Theorem X1_dedup_idempotent (samples : list Sample) :
  _ignore_duplicates (_ignore_duplicates samples) = _ignore_duplicates samples.
Proof.
  apply ignore_duplicates_fixed; [apply ignore_loop_NoDup|].
  unfold _ignore_duplicates. rewrite ignore_loop_titles. tauto.
Qed.

(** X2. What [_ignore_duplicates] returns: a subsequence of its input (the
    order is kept and nothing is invented) whose trimmed titles are
    pairwise different; the trimmed titles it keeps are exactly the
    non-empty trimmed titles of the input, so no title is lost; and every
    sample it keeps has a ["title"] key whose value is not only
    whitespace. *)
Theorem X2_dedup_output (samples : list Sample) :
  let kept := _ignore_duplicates samples in
  kept `sublist_of` samples
  ∧ NoDup (title_of <$> kept)
  ∧ (∀ t, t ∈ title_of <$> kept ↔ t ≠ [] ∧ t ∈ title_of <$> samples)
  ∧ (∀ s, s ∈ kept → ∃ title, s !! k_title = Some title ∧ strip title ≠ []).
Proof.
  cbn zeta. split; [apply ignore_loop_sublist|].
  split; [apply ignore_loop_NoDup|].
  assert (∀ t, t ∈ title_of <$> _ignore_duplicates samples
               ↔ t ≠ [] ∧ t ∈ title_of <$> samples) as Ht.
  { intros t. unfold _ignore_duplicates. rewrite ignore_loop_titles.
    pose proof (not_elem_of_empty (C := gset (list N)) t). tauto. }
  split; [exact Ht|].
  intros s Hs.
  assert (title_of s ≠ []) as Hne.
  { apply (Ht (title_of s)). by apply list_elem_of_fmap_2. }
  destruct (s !! k_title) as [title|] eqn:Hk.
  - exists title. split; [done|]. by rewrite <- (title_of_lookup s title Hk).
  - by rewrite title_of_missing in Hne.
Qed.

(** X3. [_ignore_duplicates] returns its input unchanged exactly when the
    trimmed titles of the input are pairwise different and none is
    empty. *)
Theorem X3_dedup_unchanged_iff (samples : list Sample) :
  _ignore_duplicates samples = samples
  ↔ NoDup (title_of <$> samples) ∧ [] ∉ title_of <$> samples.
Proof.
  split.
  - intros Heq. rewrite <- Heq. split; [apply ignore_loop_NoDup|].
    unfold _ignore_duplicates. rewrite ignore_loop_titles. tauto.
  - intros [Hnd Hne]. by apply ignore_duplicates_fixed.
Qed.

(** X4. Deduplicating a file that grew: the result for [a ++ b] is the
    result for [a] followed by the result for [b] without the samples
    whose trimmed title occurs in [a]. *)
Theorem X4_dedup_append (a b : list Sample) :
  _ignore_duplicates (a ++ b) =
  _ignore_duplicates a ++
  filter (λ s, title_of s ∉ title_of <$> a) (_ignore_duplicates b).
Proof. apply ignore_duplicates_app. Qed.

(** X5. Titles are compared after [strip()]: a sample whose title is the
    title of an earlier sample with whitespace added before and after is
    dropped as a duplicate. *)
Theorem X5_padded_title_is_duplicate (samples : list Sample)
    (a b : Sample) (t ws1 ws2 : pystr) :
  a ∈ samples →
  a !! k_title = Some t →
  b !! k_title = Some (ws1 ++ t ++ ws2) →
  blank ws1 → blank ws2 →
  _ignore_duplicates (samples ++ [b]) = _ignore_duplicates samples.
Proof.
  intros Ha Hta Htb H1 H2. rewrite ignore_duplicates_app.
  assert (title_of b ∈ title_of <$> samples) as Hin.
  { rewrite (title_of_lookup b _ Htb), strip_padded by done.
    rewrite <- (title_of_lookup a _ Hta). by apply list_elem_of_fmap_2. }
  assert (filter (λ s, title_of s ∉ title_of <$> samples)
            (_ignore_duplicates [b]) = []) as ->; [|by rewrite app_nil_r].
  unfold _ignore_duplicates. rewrite ignore_loop_cons.
  destruct (_ && _); [|done]. cbn [ignore_loop].
  by rewrite filter_cons_False by tauto.
Qed.

Lemma X5_padded_title_is_duplicate_witness :
  _ignore_duplicates
    ([ {[ k_url := py "a"; k_title := py "X" ]} ] ++
     [ {[ k_url := py "b"; k_title := py "  " ++ py "X" ++ py " " ]} ])
  = _ignore_duplicates [ {[ k_url := py "a"; k_title := py "X" ]} ].
Proof.
  apply (X5_padded_title_is_duplicate _
           {[ k_url := py "a"; k_title := py "X" ]} _
           (py "X") (py "  ") (py " ")).
  - by left.
  - by vm_compute.
  - by vm_compute.
  - by repeat constructor.
  - by repeat constructor.
Defined.

End DedupExtras.

(** ** [build_dataset] *)

Section BuildDataset.
Import DatasetBuilder.

(** X6. [build_dataset] over an existing raw file raises nothing of its
    own and logs two numbers, removed and kept, that are not negative and
    add up to the number of records read. With [push_to_hub] the only
    thing handed to the hub is the split ["train"], private, holding the
    deduplicated records, which are records of the file with pairwise
    different, non-empty trimmed titles; without [push_to_hub] nothing is
    handed over and nothing is written: the result is only counted in the
    log. On a path without a file the exception of [jsonlines.open] ends
    the method before anything is logged or handed over. *)
Theorem X6_build_dataset (hub : Builder.Hub) (records : list Sample)
    (push_to_hub : bool) :
  let run := Builder.build_dataset hub (Some records) push_to_hub in
  let kept := _ignore_duplicates records in
  (∃ removed, 0 ≤ removed
      ∧ removed + Z.of_nat (length kept) = Z.of_nat (length records)
      ∧ Builder.EvLog removed (Z.of_nat (length kept)) ∈ run.2)
  ∧ Builder.pushed run.2 = (if push_to_hub then [kept] else [])
  ∧ (push_to_hub = true →
       run.2 = [Builder.EvRead;
                Builder.EvLog (Z.of_nat (length records) - Z.of_nat (length kept))
                              (Z.of_nat (length kept));
                Builder.EvPush Builder.repo_id true [(Builder.train, kept)]]
       ∧ run.1 = Builder.HubError <$> Builder.push_error hub [(Builder.train, kept)])
  ∧ (push_to_hub = false → run.1 = None)
  ∧ kept `sublist_of` records
  ∧ NoDup (title_of <$> kept)
  ∧ [] ∉ title_of <$> kept
  ∧ Builder.build_dataset hub None push_to_hub
    = (Some Builder.FileNotFoundError, [Builder.EvRead]).
Proof.
  cbn zeta. unfold Builder.build_dataset, Builder._read_raw_dataset, report.
  cbn [fst snd].
  pose proof (sublist_length _ _ (ignore_loop_sublist ∅ records)) as Hlen.
  fold (_ignore_duplicates records) in Hlen.
  split; [|split; [|split; [|split; [|split; [|split; [|split]]]]]].
  - eexists. split; [|split; [|destruct push_to_hub; cbn; right; left]]; lia.
  - by destruct push_to_hub.
  - by intros ->.
  - by intros ->.
  - apply ignore_loop_sublist.
  - apply ignore_loop_NoDup.
  - unfold _ignore_duplicates. rewrite ignore_loop_titles. tauto.
  - done.
Qed.

End BuildDataset.

(** ** A crawl, step by step *)

Section Atomic.
Context (web : Web) (R : Rel) `{!Sequential R} (HR : atomic web R).

Lemma with_events_nil st : with_events [] st = st.
Proof. destruct st. setters. by rewrite app_nil_r. Qed.

Lemma atomic_scrape_article link :
  sat R (scrape_article web (article_url_of web link)).
Proof.
  intros st. rewrite scrape_article_run.
  destruct (bool_decide _) eqn:Hseen; [apply seq_refl|].
  apply bool_decide_eq_false in Hseen.
  destruct (is_http_error _) eqn:He;
    [cbn [outcome fst snd]; by apply (at_fault web R HR)|].
  destruct (sample_of _ _) as [sample|] eqn:Hs; cbn [outcome fst snd].
  - by apply (at_saved web R HR).
  - by apply (at_missing web R HR).
Qed.

Lemma atomic_for_each links :
  sat R (for_each (article_url_of web <$> links) (scrape_article web)).
Proof.
  induction links as [|link links IH]; [apply sat_ret, _|].
  rewrite fmap_cons, for_each_cons.
  apply sat_bind; [apply _|apply atomic_scrape_article|by intros].
Qed.

Lemma atomic__scrape query : sat R (_scrape web query).
Proof.
  intros st. unfold _scrape. rewrite bind_run, _get_article_urls_run.
  destruct (driver st) eqn:Hd; [|by apply (at_no_driver web R HR)].
  pose proof (at_search web R HR query st Hd) as Hsearch.
  destruct (h3_links web _ query) as [|link links] eqn:Hl; cbn [fmap list_fmap].
  { exact Hsearch. }
  rewrite bind_run.
  pose proof (atomic_for_each (link :: links)
                (set_cookie_button_clicked true
                   (with_events (search_events web query st) st))) as Hfor.
  rewrite fmap_cons in Hfor.
  destruct (for_each _ _ _) as [[[]|e] st2]; cbn in *;
    eapply seq_trans; eauto.
Qed.

Lemma atomic_pop st :
  R st (outcome (words_pop st).1) (words_pop st).2.
Proof.
  rewrite words_pop_run.
  destruct (pop (words st)) as [[query rest]|] eqn:Hp.
  - apply pop_Some in Hp. by apply (at_pop web R HR).
  - apply pop_None in Hp. by apply (at_empty web R HR).
Qed.

Lemma atomic_retry_pop :
  sat R (emit (EvLog LogLongSleepQuery);; _long_sleep;; words_pop).
Proof.
  intros st. rewrite announced_run.
  eapply seq_trans; [apply (at_long_sleep web R HR); by right|].
  apply atomic_pop.
Qed.

Lemma pop_after_events evs query rest st :
  with_events (evs ++ [EvPop query]) (set_words rest st) =
  with_events [EvPop query] (set_words rest (with_events evs st)).
Proof. setters. by rewrite app_assoc. Qed.

Lemma atomic_round_head track : sat R (round_head track).
Proof.
  intros st. rewrite round_head_run. cbn zeta.
  destruct (_ >? 25).
  - eapply seq_trans; [apply (at_long_sleep web R HR); by left|].
    destruct (pop (words st)) as [[query rest]|] eqn:Hp; cbn [outcome fst snd].
    + apply pop_Some in Hp. rewrite pop_after_events.
      by apply (at_pop web R HR).
    + apply pop_None in Hp. by apply (at_empty web R HR).
  - destruct (pop (words st)) as [[query rest]|] eqn:Hp; cbn [outcome fst snd].
    + apply pop_Some in Hp. by apply (at_pop web R HR).
    + apply pop_None in Hp. rewrite with_events_nil.
      by apply (at_empty web R HR).
Qed.

(** A sequential relation that every step keeps holds for [scrape]. *)
Lemma atomic_scrape : sat R (scrape web).
Proof.
  intros st. rewrite scrape_run.
  pose proof (sat_scrape_rounds R web atomic__scrape atomic_retry_pop
                atomic_round_head (dataset_length st) st) as Hr.
  destruct (scrape_rounds _ _ _) as [[[]|e] st1]; cbn in *; [|done].
  eapply seq_trans; [exact Hr|apply (at_done web R HR)].
Qed.

End Atomic.

(** ** Things done once: the consent click and the creation of the file *)

#[export] Instance Latch_sequential flag trigger action :
  Sequential (Latch flag trigger action).
Proof.
  split.
  - intros st. exists []. rewrite app_nil_r. cbn.
    by destruct (flag st).
  - intros st st1 o st2 (a & Ha & Hfa & Hca) (b & Hb & Hfb & Hcb).
    exists (a ++ b). rewrite Hb, Ha, app_assoc. split; [done|].
    rewrite existsb_app, List.filter_app, length_app, Hca, Hcb, Hfb, Hfa.
    by destruct (flag st), (existsb trigger a), (existsb trigger b).
Qed.

Lemma latch_step flag trigger action st o st' new :
  trace st' = trace st ++ new →
  flag st' = flag st || existsb trigger new →
  length (List.filter action new)
  = (if flag st || negb (existsb trigger new) then 0%nat else 1%nat) →
  Latch flag trigger action st o st'.
Proof. intros. by exists new. Qed.

Lemma latch_refl flag trigger action st o :
  Latch flag trigger action st o st.
Proof. exists []. rewrite app_nil_r. cbn. by destruct (flag st). Qed.

Lemma consent_atomic web :
  atomic web (Latch cookie_button_clicked is_search is_click).
Proof.
  split.
  - intros query st _. eapply latch_step; [done| |].
    + cbn. by rewrite orb_true_r.
    + unfold search_events. by destruct (cookie_button_clicked st).
  - intros st _. apply latch_refl.
  - intros link st _ _. eapply latch_step; [done| |]; cbn;
      by destruct (cookie_button_clicked st).
  - intros link st _ _ _. eapply latch_step; [done| |]; cbn;
      by destruct (cookie_button_clicked st).
  - intros link sample st _ _ _. eapply latch_step.
    + cbn. by rewrite <- app_assoc.
    + cbn. unfold save_events. cbn.
      destruct (dataset_file st), (_ =? 0); cbn;
        by destruct (cookie_button_clicked st).
    + cbn. unfold save_events. cbn.
      destruct (dataset_file st), (_ =? 0); cbn;
        by destruct (cookie_button_clicked st).
  - intros line st _. eapply latch_step; [done| |]; cbn;
      by destruct (cookie_button_clicked st).
  - intros query rest st _. eapply latch_step; [done| |]; cbn;
      by destruct (cookie_button_clicked st).
  - intros st _. apply latch_refl.
  - intros st. eapply latch_step; [done| |]; cbn;
      by destruct (cookie_button_clicked st).
Qed.

Lemma created_atomic web : atomic web (Latch file_exists is_append is_touch).
Proof.
  split.
  - intros query st _. eapply latch_step; [done| |];
      unfold search_events, file_exists; cbn;
      destruct (cookie_button_clicked st), (dataset_file st); done.
  - intros st _. apply latch_refl.
  - intros link st _ _. eapply latch_step; [done| |];
      unfold file_exists; cbn; by destruct (dataset_file st).
  - intros link st _ _ _. eapply latch_step; [done| |];
      unfold file_exists; cbn; by destruct (dataset_file st).
  - intros link sample st _ _ _. eapply latch_step.
    + cbn. by rewrite <- app_assoc.
    + unfold file_exists, save_events. cbn.
      destruct (dataset_file st), (_ =? 0); done.
    + unfold file_exists, save_events. cbn.
      destruct (dataset_file st), (_ =? 0); done.
  - intros line st _. eapply latch_step; [done| |];
      unfold file_exists; cbn; by destruct (dataset_file st).
  - intros query rest st _. eapply latch_step; [done| |];
      unfold file_exists; cbn; by destruct (dataset_file st).
  - intros st _. apply latch_refl.
  - intros st. eapply latch_step; [done| |];
      unfold file_exists; cbn; by destruct (dataset_file st).
Qed.

(** X7. The consent button. Whatever the site answers and however
    [scrape] ends, [_click_cookie_button] is tried at most once: exactly
    once when the button had not been tried before and a search page was
    loaded, never otherwise; after the first search page the scraper
    counts the button as clicked whether or not the click succeeded. *)
Theorem X7_consent_click_once (web : Web) (st : State) :
  ∃ new, trace (scrape web st).2 = trace st ++ new
    ∧ cookie_button_clicked (scrape web st).2
      = cookie_button_clicked st || existsb is_search new
    ∧ length (List.filter is_click new)
      = if cookie_button_clicked st || negb (existsb is_search new)
        then 0%nat else 1%nat.
Proof.
  destruct (atomic_scrape web _ (consent_atomic web) st)
    as (new & Htr & Hflag & Hcount).
  exists new. by rewrite Htr, Hflag, Hcount.
Qed.

(** X8. The dataset file is created lazily and once: during [scrape]
    [dataset_path.touch()] is called exactly once when the file did not
    exist and a record was written, and never otherwise; the file exists
    afterwards exactly when it existed before or a record was written, so
    a crawl that writes nothing creates no file. *)
Theorem X8_file_created_once (web : Web) (st : State) :
  ∃ new, trace (scrape web st).2 = trace st ++ new
    ∧ file_exists (scrape web st).2 = file_exists st || existsb is_append new
    ∧ length (List.filter is_touch new)
      = if file_exists st || negb (existsb is_append new)
        then 0%nat else 1%nat.
Proof.
  destruct (atomic_scrape web _ (created_atomic web) st)
    as (new & Htr & Hflag & Hcount).
  exists new. by rewrite Htr, Hflag, Hcount.
Qed.

(** ** Progress lines *)

Lemma progress_lines_app a b :
  progress_lines (a ++ b) = progress_lines a ++ progress_lines b.
Proof. apply omap_app. Qed.

Lemma tens_between_refl count max : tens_between count count max = [].
Proof. unfold tens_between. by rewrite Z.sub_diag. Qed.

Lemma tens_between_trans c c1 c2 max :
  c ≤ c1 → c1 ≤ c2 →
  tens_between c c1 max ++ tens_between c1 c2 max = tens_between c c2 max.
Proof.
  intros H1 H2. unfold tens_between. rewrite <- fmap_app.
  pose proof (Z.div_le_mono c c1 10) as D1.
  pose proof (Z.div_le_mono c1 c2 10) as D2.
  replace (c2 / 10 - c / 10) with ((c1 / 10 - c / 10) + (c2 / 10 - c1 / 10))
    by lia.
  rewrite seqZ_app by lia. do 3 f_equal. lia.
Qed.

(** One more record: a progress line exactly when the new count is a
    multiple of ten. *)
Lemma tens_between_succ count max :
  tens_between count (count + 1) max =
  if (count + 1) mod 10 =? 0 then [(count + 1, max)] else [].
Proof.
  unfold tens_between.
  destruct (Z.eqb_spec ((count + 1) mod 10) 0) as [H0|H0].
  - assert ((count + 1) / 10 - count / 10 = 1) as -> by
      (Z.div_mod_to_equations; lia).
    rewrite seqZ_cons, seqZ_nil by lia. cbn [fmap list_fmap].
    do 2 f_equal. Z.div_mod_to_equations; lia.
  - assert ((count + 1) / 10 - count / 10 = 0) as -> by
      (Z.div_mod_to_equations; lia).
    done.
Qed.

#[export] Instance Progress_sequential : Sequential Progress.
Proof.
  split.
  - intros st. exists []. rewrite app_nil_r, tens_between_refl.
    split; [done|]. split; [done|]. split; [lia|done].
  - intros st st1 o st2 (a & Ha & Hma & Hla & Hpa) (b & Hb & Hmb & Hlb & Hpb).
    exists (a ++ b). rewrite Hb, Ha, app_assoc. split; [done|].
    split; [congruence|]. split; [lia|].
    rewrite progress_lines_app, Hpa, Hpb, Hma.
    by apply tens_between_trans.
Qed.

(** A step that leaves the count alone and logs no progress. *)
Lemma progress_still st o st' new :
  trace st' = trace st ++ new →
  max_articles st' = max_articles st →
  dataset_length st' = dataset_length st →
  progress_lines new = [] →
  Progress st o st'.
Proof.
  intros Htr Hm Hl Hp. exists new. rewrite Hl, Hp, tens_between_refl.
  split; [done|]. split; [done|]. split; [lia|done].
Qed.

Lemma progress_atomic web : atomic web Progress.
Proof.
  split.
  - intros query st _. eapply progress_still; [done..|].
    unfold search_events.
    destruct (cookie_button_clicked st); [done|].
    cbn. by destruct (cookie_button web _).
  - intros st _. eapply (progress_still _ _ _ []); [|done..].
    by rewrite app_nil_r.
  - intros link st _ _. by eapply progress_still.
  - intros link st _ _ _. by eapply progress_still.
  - intros link sample st _ _ _. eexists. split; [|split; [done|split]].
    + cbn. by rewrite <- app_assoc.
    + cbn. lia.
    + cbn [saved with_events set_trace set_dataset_length dataset_length
           max_articles request_events].
      rewrite tens_between_succ, progress_lines_app. cbn [progress_lines omap].
      unfold save_events. cbn.
      destruct (dataset_file st), (_ =? 0); done.
  - intros line st [-> | ->]; by eapply progress_still.
  - intros query rest st _. by eapply progress_still.
  - intros st _. eapply (progress_still _ _ _ []); [|done..].
    by rewrite app_nil_r.
  - intros st. by eapply progress_still.
Qed.

(** X9. The progress lines of a crawl. Whatever the site answers and
    however [scrape] ends, the count never decreases and the log gets one
    "Progress: n/max" line for every multiple of ten that the count
    reaches, in increasing order, each with [max_articles] as its second
    number: from count [c] to count [c'] these are the multiples of ten
    above [c] and up to [c'], so [c' // 10 - c // 10] lines. *)
Theorem X9_progress_lines (web : Web) (st : State) :
  let st' := (scrape web st).2 in
  ∃ new, trace st' = trace st ++ new
    ∧ dataset_length st ≤ dataset_length st'
    ∧ progress_lines new
      = (λ k, (10 * k, max_articles st))
        <$> seqZ (dataset_length st / 10 + 1)
                 (dataset_length st' / 10 - dataset_length st / 10)
    ∧ Z.of_nat (length (progress_lines new))
      = dataset_length st' / 10 - dataset_length st / 10.
Proof.
  cbn zeta.
  destruct (atomic_scrape web _ (progress_atomic web) st)
    as (new & Htr & _ & Hle & Hp).
  exists new. split; [done|]. split; [done|]. split; [exact Hp|].
  rewrite Hp. unfold tens_between. rewrite length_fmap, length_seqZ.
  pose proof (Z.div_le_mono _ _ 10 ltac:(lia) Hle). lia.
Qed.

(** ** Sleeps *)

Lemma sleeps_app a b : sleeps (a ++ b) = sleeps a ++ sleeps b.
Proof. apply omap_app. Qed.

#[export] Instance Slept_sequential : Sequential Slept.
Proof.
  split.
  - intros st. exists []. by rewrite app_nil_r.
  - intros st st1 o st2 (a & Ha & Hda & Hsa) (b & Hb & Hdb & Hsb).
    exists (a ++ b). rewrite Hb, Ha, app_assoc. split; [done|].
    split; [congruence|].
    by rewrite sleeps_app, bind_app, Hsa, Hsb, Hda.
Qed.

Lemma slept_step st o st' new :
  trace st' = trace st ++ new → debug st' = debug st →
  sleeps new = new ≫= owed (debug st) →
  Slept st o st'.
Proof. intros. by exists new. Qed.

Lemma slept_atomic web : atomic web Slept.
Proof.
  split.
  - intros query st _. eapply slept_step; [done..|].
    unfold search_events. destruct (cookie_button_clicked st); [done|].
    cbn. by destruct (cookie_button web _).
  - intros st _. apply (slept_step _ _ _ []); [|done..]. by rewrite app_nil_r.
  - intros link st _ _. by eapply slept_step.
  - intros link st _ _ _. by eapply slept_step.
  - intros link sample st _ _ _. eapply slept_step.
    + cbn. by rewrite <- app_assoc.
    + done.
    + unfold save_events. cbn. destruct (dataset_file st), (_ =? 0); done.
  - intros line st [-> | ->]; by eapply slept_step.
  - intros query rest st _. by eapply slept_step.
  - intros st _. apply (slept_step _ _ _ []); [|done..]. by rewrite app_nil_r.
  - intros st. by eapply slept_step.
Qed.

Lemma owed_length dbg tr :
  length (tr ≫= owed dbg)
  = (length (searched tr) + length (fetched tr) + length (announced tr))%nat.
Proof.
  induction tr as [|ev tr IH]; [done|].
  rewrite bind_cons, length_app, IH.
  unfold searched, fetched, announced. rewrite !omap_cons_match.
  destruct ev as [| | | | | | | |[]]; cbn [owed length]; lia.
Qed.

Lemma owed_least_seconds tr :
  (least_seconds (tr ≫= owed false)
   == 30 * inject_Z (Z.of_nat (length (searched tr) + length (fetched tr)))
      + 300 * inject_Z (Z.of_nat (length (announced tr))))%Q.
Proof.
  induction tr as [|ev tr IH]; [done|].
  rewrite bind_cons.
  unfold searched, fetched, announced in *. rewrite !omap_cons_match.
  destruct ev as [| | | | | | | |[]];
    cbn [owed app least_seconds foldr short_range long_range fst length];
    fold (least_seconds (tr ≫= owed false)); try exact IH;
    rewrite IH, ?Nat.add_succ_r, ?Nat.add_succ_l, !Nat2Z.inj_succ;
    unfold Z.succ; rewrite !inject_Z_plus; ring.
Qed.

(** X10. Sleeps and page loads. However [scrape] ends, its sleeps are, in
    order, exactly one short sleep for every page loaded (search page or
    article) and one long sleep for every "Long sleep" log line, and
    nothing else sleeps. So the number of sleeps is the number of search
    pages plus the number of article requests plus the number of long
    sleeps logged, and outside debug mode the sleeps take at least 30
    seconds for every page loaded plus 300 seconds for every long sleep
    logged. *)
Theorem X10_sleeps_accounted (web : Web) (st : State) :
  ∃ new, trace (scrape web st).2 = trace st ++ new
    ∧ sleeps new = new ≫= owed (debug st)
    ∧ length (sleeps new)
      = (length (searched new) + length (fetched new)
         + length (announced new))%nat
    ∧ (debug st = false →
       (least_seconds (sleeps new)
        == 30 * inject_Z (Z.of_nat (length (searched new)
                                    + length (fetched new)))
           + 300 * inject_Z (Z.of_nat (length (announced new))))%Q).
Proof.
  destruct (atomic_scrape web _ (slept_atomic web) st)
    as (new & Htr & _ & Hs).
  exists new. split; [done|]. split; [done|]. split.
  - rewrite Hs. apply owed_length.
  - intros Hd. rewrite Hs, Hd. apply owed_least_seconds.
Qed.

(** ** Requests and records *)

Lemma sample_of_valid u page sample :
  sample_of u page = Some sample → valid_record sample.
Proof.
  unfold sample_of.
  destruct (truthy (_get_text page)) eqn:Ht; [|done].
  destruct (truthy (_get_summary page)) eqn:Hs; [|done].
  cbn. intros [= <-]. do 4 eexists. split; [done|].
  split; by apply truthy_nonempty.
Qed.

#[export] Instance Answered_sequential web : Sequential (Answered web).
Proof.
  split.
  - intros st. exists []. rewrite app_nil_r. by repeat split.
  - intros st st1 o st2 (a & Ha & Hva & Hla & Hfa & _)
      (b & Hb & Hvb & Hlb & Hfb & Hob).
    exists (a ++ b). rewrite Hb, Ha, app_assoc.
    rewrite appended_app, fetched_app, bind_app, Hfa, Hfb, app_nil_r.
    split; [done|]. split; [by apply Forall_app|].
    split.
    { apply Forall_app. split; [by rewrite <- (app_nil_r (a ≫= settled)), <- Hfa|].
      by rewrite <- Hfb. }
    destruct o as [[| | |status]|]; rewrite <- ?app_assoc; try done.
    destruct Hob as [u Hu]. rewrite Hu.
    assert (last (a ++ b) = Some (EvSessionGet u)) as ->.
    { destruct b as [|ev b _] using rev_ind; [done|].
      rewrite last_snoc in Hu. by rewrite app_assoc, last_snoc. }
    split; [done|by exists u].
Qed.

Lemma answered_step web st o st' new :
  trace st' = trace st ++ new →
  Forall valid_record (appended new) →
  Forall (listed web) (fetched new) →
  fetched new = new ≫= settled →
  match o with Some (HTTPError _) => False | _ => True end →
  Answered web st o st'.
Proof.
  intros Htr Hv Hl Hf Ho. exists new. rewrite Hf, <- Hf.
  split; [done|]. split; [done|]. split; [done|].
  destruct o as [[| | |status]|]; rewrite ?app_nil_r; done.
Qed.

Lemma answered_atomic web : atomic web (Answered web).
Proof.
  split.
  - intros query st _. eapply answered_step; [done| | | |done];
      unfold search_events; destruct (cookie_button_clicked st); cbn;
      try destruct (cookie_button web _); by repeat constructor.
  - intros st _. apply (answered_step _ _ _ _ []); [|done..].
    by rewrite app_nil_r.
  - intros link st _ _. exists (request_events (article_url_of web link) st).
    split; [done|]. split; [constructor|]. split.
    { repeat constructor. by exists link. }
    split; [done|by eexists].
  - intros link st _ _ _. eapply answered_step; [done| | |done..].
    + constructor.
    + repeat constructor. by exists link.
  - intros link sample st _ _ Hs.
    pose proof (sample_of_valid _ _ _ Hs) as Hv.
    apply sample_of_Some in Hs as [Hu _].
    eapply answered_step.
    + cbn. by rewrite <- app_assoc.
    + unfold save_events. cbn.
      destruct (dataset_file st), (_ =? 0); by repeat constructor.
    + unfold save_events. cbn.
      destruct (dataset_file st), (_ =? 0); repeat constructor;
        by exists link.
    + unfold save_events. cbn -[lookup k_url].
      destruct (dataset_file st), (_ =? 0); cbn -[lookup k_url];
        by rewrite Hu.
    + done.
  - intros line st [-> | ->]; by eapply answered_step.
  - intros query rest st _. by eapply answered_step.
  - intros st _. apply (answered_step _ _ _ _ []); [|done..].
    by rewrite app_nil_r.
  - intros st. by eapply answered_step.
Qed.

Lemma mk_sample_dom u title summary text :
  dom (mk_sample u title summary text)
  = ({[k_url; k_title; k_summary; k_text]} : gset (list N)).
Proof.
  unfold mk_sample. rewrite !dom_insert_L, dom_empty_L.
  apply set_eq. intros k. rewrite !elem_of_union, !elem_of_singleton.
  rewrite elem_of_empty. tauto.
Qed.

(** X11. What becomes of every article request. However [scrape] ends,
    the urls requested are, in order, the urls of the records written and
    of the "Missing text and/or summary" warnings logged: every request is
    settled by a record with its url or by a warning for its url, before
    the next request is made. The one exception is the request that was
    answered with an error status: it is the last event of a crawl that
    ends with [HTTPError]. *)
Theorem X11_requests_settled (web : Web) (st : State) :
  ∃ new, trace (scrape web st).2 = trace st ++ new
    ∧ match (scrape web st).1 with
      | Raise (HTTPError _) =>
          ∃ pre u, new = pre ++ [EvSessionGet u]
                   ∧ fetched pre = pre ≫= settled
      | _ => fetched new = new ≫= settled
      end.
Proof.
  destruct (atomic_scrape web _ (answered_atomic web) st)
    as (new & Htr & _ & _ & Hf & Ho).
  exists new. split; [done|].
  destruct (scrape web st).1 as [[]|[| | |status]]; cbn in Hf, Ho;
    rewrite ?app_nil_r in Hf; try done.
  destruct Ho as [u Hu]. rewrite Hu in Hf.
  destruct new as [|ev pre _] using rev_ind; [done|].
  rewrite last_snoc in Hu. injection Hu as ->.
  exists pre, u. split; [done|].
  rewrite fetched_app, bind_app in Hf. cbn in Hf.
  rewrite app_nil_r in Hf. by apply app_inv_tail in Hf.
Qed.

(** X12. The records of a crawl. However [scrape] ends, the dataset file
    afterwards is the file before followed by the records written, and
    every record written has exactly the four keys ["url"], ["title"],
    ["summary"] and ["text"], with a summary and a text that are not
    empty. *)
Theorem X12_records_written (web : Web) (st : State) :
  ∃ new, trace (scrape web st).2 = trace st ++ new
    ∧ records_of (scrape web st).2 = records_of st ++ appended new
    ∧ Forall (λ sample : Sample,
        dom sample = ({[k_url; k_title; k_summary; k_text]} : gset (list N))
        ∧ (∃ summary, sample !! k_summary = Some summary ∧ summary ≠ [])
        ∧ (∃ text, sample !! k_text = Some text ∧ text ≠ []))
        (appended new).
Proof.
  destruct (atomic_scrape web _ (answered_atomic web) st)
    as (new & Htr & Hv & _).
  destruct (adv_scrape web st) as [new' Hadv].
  assert (new' = new) as ->.
  { apply (advances_events _ _ _ _ Hadv Htr). }
  exists new. split; [done|]. split; [apply Hadv|].
  eapply Forall_impl; [exact Hv|].
  intros sample (u & title & summary & text & -> & Hs & Ht).
  split; [apply mk_sample_dom|]. split.
  - exists summary. split; [|done]. by vm_compute.
  - exists text. split; [|done]. by vm_compute.
Qed.

(** X13. Where the requests go. Every url that [scrape] requests was built
    from a link of a search page: it is the link itself when
    [tldextract] finds the domain ["lrytas"] in it, and otherwise the link
    with ["https://www.lrytas.lt"] put before it, whatever the link is. *)
Theorem X13_requests_on_site (web : Web) (st : State) :
  ∃ new, trace (scrape web st).2 = trace st ++ new
    ∧ Forall (λ u,
        tld_domain web u = site_domain
        ∨ ∃ link, u = site_prefix ++ link
                  ∧ tld_domain web link ≠ site_domain)
        (fetched new).
Proof.
  destruct (atomic_scrape web _ (answered_atomic web) st)
    as (new & Htr & _ & Hl & _).
  exists new. split; [done|].
  eapply Forall_impl; [exact Hl|].
  intros u [link ->]. unfold article_url_of.
  destruct (bool_decide _) eqn:Hd.
  - apply bool_decide_eq_true in Hd. right. by exists link.
  - apply bool_decide_eq_false in Hd. left.
    by destruct (decide (tld_domain web link = site_domain)).
Qed.

(** ** Exceptions *)

#[export] Instance Raises_sequential : Sequential Raises.
Proof.
  split.
  - by intros st.
  - intros st st1 o st2 [Hda _] [Hdb Hob]. split; [congruence|].
    destruct o as [[| | |status]|]; try done. congruence.
Qed.

Lemma raises_atomic web : atomic web Raises.
Proof.
  split; try done.
  intros link st _ He. split; [done|].
  unfold is_http_error in He. apply andb_true_iff in He as [H1 H2]. lia.
Qed.

(** X14. The exceptions of [scrape]. [scrape] never ends with [KeyError],
    although [_save_sample] reads [sample["url"]]; it ends with
    [ValueError] only when there is no driver, that is outside the [with]
    block; with [HTTPError] only for a status from 400 to 599; and with
    [IndexError] only with an empty word list. The driver is the same
    afterwards. *)
Theorem X14_exceptions_of_scrape (web : Web) (st : State) :
  driver (scrape web st).2 = driver st
  ∧ match (scrape web st).1 with
    | Ok _ => True
    | Raise IndexError => words (scrape web st).2 = []
    | Raise ValueError => driver st = false
    | Raise (HTTPError status) => 400 ≤ status < 600
    | Raise (KeyError _) => False
    end.
Proof.
  destruct (atomic_scrape web _ (raises_atomic web) st) as [Hd Ho].
  split; [done|]. by destruct (scrape web st).1 as [[]|[| | |status]].
Qed.

(** ** Construction *)

Lemma for_each_app {A} (xs ys : list A) (body : A → M unit) st :
  for_each (xs ++ ys) body st =
  match for_each xs body st with
  | (Ok _, st1) => for_each ys body st1
  | (Raise e, st1) => (Raise e, st1)
  end.
Proof.
  revert st. induction xs as [|x xs IH]; intros st; [done|].
  rewrite <- app_comm_cons, !for_each_cons, !bind_run.
  destruct (body x st) as [[[]|e] st1]; [apply IH|done].
Qed.

Lemma note_record_missing (sample : Sample) st :
  sample !! k_url = None → note_record sample st = (Raise (KeyError k_url), st).
Proof. intros Hu. unfold note_record, getitem. by rewrite Hu. Qed.

Lemma init_run file max dbg shuffled :
  __init__ file max dbg shuffled =
  match _get_dataset_info (fresh file max dbg) with
  | (Ok _, st) => (Ok tt, set_words shuffled st)
  | (Raise e, st) => (Raise e, st)
  end.
Proof.
  unfold __init__. rewrite bind_run. fold (fresh file max dbg).
  by destruct (_get_dataset_info _) as [[[]|e] st].
Qed.

(** The loop of [_get_dataset_info] changes the count and the seen set
    only, and raises nothing but the [KeyError] of [sample["url"]]. *)
Lemma note_loop_keeps (records : list Sample) st :
  let run := for_each records note_record st in
  driver run.2 = driver st
  ∧ cookie_button_clicked run.2 = cookie_button_clicked st
  ∧ debug run.2 = debug st ∧ max_articles run.2 = max_articles st
  ∧ dataset_file run.2 = dataset_file st ∧ trace run.2 = trace st
  ∧ words run.2 = words st
  ∧ match run.1 with Ok _ => True | Raise e => e = KeyError k_url end.
Proof.
  cbn zeta. revert st. induction records as [|s records IH]; intros st.
  { by repeat split. }
  rewrite for_each_cons, bind_run.
  destruct (s !! k_url) as [u|] eqn:Hu.
  - rewrite (note_record_run s u st Hu).
    apply (IH (set_dataset_length (dataset_length st + 1)
                 (set_seen_urls ({[u]} ∪ seen_urls st) st))).
  - rewrite (note_record_missing s st Hu). by repeat split.
Qed.

(** The loop of [_get_dataset_info] stops at the first record without a
    url. *)
Lemma recovery_stops (good : list Sample) bad rest st :
  Forall has_url good → bad !! k_url = None →
  ∃ st', for_each (good ++ bad :: rest) note_record st
         = (Raise (KeyError k_url), st')
    ∧ dataset_length st' = dataset_length st + Z.of_nat (length good)
    ∧ seen_urls st' = list_to_set (urls_of good) ∪ seen_urls st
    ∧ dataset_file st' = dataset_file st
    ∧ trace st' = trace st
    ∧ max_articles st' = max_articles st ∧ debug st' = debug st
    ∧ driver st' = driver st.
Proof.
  intros Hgood Hbad.
  destruct (recovery_loop good st Hgood) as (st' & Hrun & Hrest).
  exists st'. split; [|exact Hrest].
  rewrite for_each_app, Hrun, for_each_cons, bind_run.
  by rewrite note_record_missing.
Qed.

(** Every file splits into the records before the first one without a
    url and the rest. *)
Lemma first_without_url (records : list Sample) :
  Forall has_url records
  ∨ ∃ good bad rest, records = good ++ bad :: rest
      ∧ Forall has_url good ∧ bad !! k_url = None.
Proof.
  induction records as [|s records IH]; [left; constructor|].
  destruct (s !! k_url) as [u|] eqn:Hu.
  - destruct IH as [Hall|(good & bad & rest & -> & Hgood & Hbad)].
    + left. constructor; [by exists u|done].
    + right. exists (s :: good), bad, rest. split; [done|].
      split; [|done]. constructor; [by exists u|done].
  - right. exists [], s, records. split; [done|]. split; [constructor|done].
Qed.

Lemma init_constructed file max dbg shuffled :
  let run := __init__ file max dbg shuffled in
  constructed file max dbg run.2
  ∧ match run.1 with
    | Ok _ => words run.2 = shuffled
    | Raise e => e = KeyError k_url
    end.
Proof.
  cbn zeta. rewrite init_run. unfold _get_dataset_info. rewrite bind_run.
  cbn [get_state fresh dataset_file]. fold (fresh file max dbg).
  destruct file as [records|]; [|by repeat split].
  pose proof (note_loop_keeps records (fresh (Some records) max dbg))
    as (Hd & Hc & Hdbg & Hm & Hf & Ht & Hw & Ho).
  cbn zeta in *.
  destruct (for_each records note_record _) as [[[]|e] st]; cbn in *.
  - by repeat split.
  - by repeat split.
Qed.

(** X15. A dataset file with a record that has no ["url"]. The
    constructor reads the file record by record and ends with
    [KeyError: 'url'] at the first record without the key, having counted
    the records before it; the script ends with that exception before a
    browser is started, a page is loaded or the file is touched. *)
Theorem X15_init_record_without_url (web : Web) (good : list Sample)
    (bad : Sample) (rest : list Sample) (max : Z) (dbg : bool)
    (pool : list Query) :
  Forall has_url good → bad !! k_url = None →
  ∃ st, __init__ (Some (good ++ bad :: rest)) max dbg pool
        = (Raise (KeyError k_url), st)
    ∧ dataset_length st = Z.of_nat (length good)
    ∧ seen_urls st = list_to_set (urls_of good)
    ∧ main web (Some (good ++ bad :: rest)) max dbg pool
      = (Raise (KeyError k_url), st)
    ∧ trace st = []
    ∧ dataset_file st = Some (good ++ bad :: rest).
Proof.
  intros Hgood Hbad.
  destruct (recovery_stops good bad rest
              (fresh (Some (good ++ bad :: rest)) max dbg) Hgood Hbad)
    as (st & Hrun & Hlen & Hseen & Hfile & Htr & _).
  assert (__init__ (Some (good ++ bad :: rest)) max dbg pool
          = (Raise (KeyError k_url), st)) as Hinit.
  { rewrite init_run. unfold _get_dataset_info. rewrite bind_run.
    cbn [get_state fresh dataset_file].
    fold (fresh (Some (good ++ bad :: rest)) max dbg). by rewrite Hrun. }
  exists st. split; [done|]. cbn in Hlen, Hseen, Hfile, Htr.
  split; [lia|]. split; [by rewrite Hseen, (right_id_L ∅ (∪))|].
  split; [|done]. unfold main. by rewrite Hinit.
Qed.

Lemma X15_init_record_without_url_witness :
  ∃ st, __init__ (Some ([ {[ k_url := py "a"; k_title := py "X" ]} ] ++
                        {[ k_title := py "Y" ]} :: []))
          10 false [py "ir"]
        = (Raise (KeyError k_url), st)
    ∧ dataset_length st = Z.of_nat 1
    ∧ seen_urls st
      = list_to_set (urls_of [ {[ k_url := py "a"; k_title := py "X" ]} ])
    ∧ main one_per_query
        (Some ([ {[ k_url := py "a"; k_title := py "X" ]} ] ++
               {[ k_title := py "Y" ]} :: []))
        10 false [py "ir"]
      = (Raise (KeyError k_url), st)
    ∧ trace st = []
    ∧ dataset_file st
      = Some ([ {[ k_url := py "a"; k_title := py "X" ]} ] ++
              {[ k_title := py "Y" ]} :: []).
Proof.
  apply (X15_init_record_without_url one_per_query
           [ {[ k_url := py "a"; k_title := py "X" ]} ]
           {[ k_title := py "Y" ]} [] 10 false [py "ir"]).
  - repeat constructor. by eexists.
  - by vm_compute.
Defined.

(** ** The script *)

#[export] Instance Browsing_sequential : Sequential Browsing.
Proof.
  split.
  - intros st. exists []. by rewrite app_nil_r.
  - intros st st1 o st2 (a & Ha & Hqa) (b & Hb & Hqb).
    exists (a ++ b). rewrite Hb, Ha, app_assoc. split; [done|].
    by apply Forall_app.
Qed.

Lemma browsing_atomic web : atomic web Browsing.
Proof.
  split.
  - intros query st _. eexists. split; [done|]. unfold search_events.
    destruct (cookie_button_clicked st); by repeat constructor.
  - intros st _. exists []. by rewrite app_nil_r.
  - intros link st _ _. eexists. split; [done|]. by repeat constructor.
  - intros link st _ _ _. eexists. split; [done|]. by repeat constructor.
  - intros link sample st _ _ _. eexists. split.
    + cbn. by rewrite <- app_assoc.
    + unfold save_events. cbn.
      destruct (dataset_file st), (_ =? 0); by repeat constructor.
  - intros line st _. eexists. split; [done|]. by repeat constructor.
  - intros query rest st _. eexists. split; [done|]. by repeat constructor.
  - intros st _. exists []. by rewrite app_nil_r.
  - intros st. eexists. split; [done|]. by repeat constructor.
Qed.

(** [main] after a constructor that returned. *)
Lemma main_run web file max dbg pool st0 :
  __init__ file max dbg pool = (Ok tt, st0) →
  main web file max dbg pool =
  ((scrape web (set_driver true st0)).1,
   with_events [EvDriverQuit] (scrape web (set_driver true st0)).2).
Proof.
  intros Hinit. unfold main. rewrite Hinit, bind_run.
  cbn [__enter__ modify].
  destruct (atomic_scrape web _ (raises_atomic web) (set_driver true st0))
    as [Hd _].
  destruct (scrape web (set_driver true st0)) as [r st1]. cbn in Hd |- *.
  f_equal. unfold __exit__. rewrite bind_run. cbn [get_state].
  by rewrite Hd.
Qed.

(** X16. The [with] block of the script. When the constructor returns,
    [main] ends as [scrape] ends, with the same exception if there is one,
    and its events are those of [scrape] followed by one
    [driver.quit()]: the browser is quit exactly once, last, whether
    [scrape] returned or raised. Inside the block [scrape] never ends
    with [ValueError] or [KeyError]. When the constructor raises, [main]
    ends with its exception and nothing has happened: no browser, no page,
    no sleep. *)
Theorem X16_main_quits_browser (web : Web) (file : option (list Sample))
    (max : Z) (dbg : bool) (pool : list Query) :
  let init := __init__ file max dbg pool in
  let run := main web file max dbg pool in
  match init.1 with
  | Raise e => run = (Raise e, init.2) ∧ trace run.2 = []
  | Ok _ =>
      let crawl := scrape web (set_driver true init.2) in
      run.1 = crawl.1
      ∧ trace run.2 = trace crawl.2 ++ [EvDriverQuit]
      ∧ EvDriverQuit ∉ trace crawl.2
      ∧ dataset_file run.2 = dataset_file crawl.2
      ∧ run.1 ≠ Raise ValueError
      ∧ ∀ key, run.1 ≠ Raise (KeyError key)
  end.
Proof.
  cbn zeta.
  pose proof (init_constructed file max dbg pool) as [Hc _].
  cbn zeta in Hc. destruct Hc as (_ & _ & _ & _ & _ & Htr).
  destruct (__init__ file max dbg pool) as [[[]|e] st0] eqn:Hinit;
    cbn [fst snd] in *.
  - rewrite (main_run web file max dbg pool st0 Hinit). cbn [fst snd].
    destruct (atomic_scrape web _ (browsing_atomic web) (set_driver true st0))
      as (new & Hnew & Hq).
    destruct (atomic_scrape web _ (raises_atomic web) (set_driver true st0))
      as [_ Ho].
    split; [done|]. split; [done|]. split.
    { rewrite Hnew. cbn. rewrite Htr. cbn.
      intros Hin. by apply (proj1 (Forall_forall _ _) Hq _ Hin). }
    split; [done|].
    destruct (scrape web (set_driver true st0)).1 as [[]|[| | |status]];
      cbn in Ho; split; try done.
  - unfold main. rewrite Hinit. by cbn.
Qed.

Lemma scrape_quota_met web st :
  max_articles st ≤ dataset_length st →
  scrape web st = (Ok tt, with_events [EvLog (LogDone (dataset_length st))] st).
Proof.
  intros Hq. rewrite scrape_run, scrape_rounds_round.
  by rewrite (proj2 (Z.ltb_ge _ _) Hq).
Qed.

(** X17. Running the script again on a finished dataset. When the file
    already holds at least [max_articles] records, all with a url, [main]
    returns after starting and quitting the browser: it logs "Done
    scraping n articles" with the number of records of the file, loads no
    page, sleeps never, draws no word and leaves the file as it was. *)
Theorem X17_quota_already_met (web : Web) (records : list Sample) (max : Z)
    (dbg : bool) (pool : list Query) :
  Forall has_url records → max ≤ Z.of_nat (length records) →
  ∃ st, main web (Some records) max dbg pool = (Ok tt, st)
    ∧ trace st = [EvLog (LogDone (Z.of_nat (length records))); EvDriverQuit]
    ∧ dataset_file st = Some records
    ∧ words st = pool
    ∧ dataset_length st = Z.of_nat (length records).
Proof.
  intros Hurls Hmax.
  pose proof (init_constructed (Some records) max dbg pool) as [Hc Hw].
  cbn zeta in Hc, Hw. destruct Hc as (_ & _ & _ & Hm & Hf & Htr).
  destruct (recovery_loop records (fresh (Some records) max dbg) Hurls)
    as (st1 & Hrun & Hlen & _).
  assert (__init__ (Some records) max dbg pool
          = (Ok tt, set_words pool st1)) as Hinit.
  { rewrite init_run. unfold _get_dataset_info. rewrite bind_run.
    cbn [get_state fresh dataset_file].
    fold (fresh (Some records) max dbg). by rewrite Hrun. }
  rewrite Hinit in Hm, Hf, Htr, Hw. cbn [fst snd] in *.
  rewrite (main_run _ _ _ _ _ _ Hinit), scrape_quota_met by (cbn in *; lia).
  eexists. split; [done|]. cbn in *. rewrite Htr, Hlen.
  split; [by rewrite Z.add_0_l|]. split; [done|]. split; [done|lia].
Qed.

Lemma X17_quota_already_met_witness :
  ∃ st, main one_per_query (Some dedup_example_input) 3 false
          (numbered_words 5) = (Ok tt, st)
    ∧ trace st
      = [EvLog (LogDone (Z.of_nat (length dedup_example_input)));
         EvDriverQuit]
    ∧ dataset_file st = Some dedup_example_input
    ∧ words st = numbered_words 5
    ∧ dataset_length st = Z.of_nat (length dedup_example_input).
Proof.
  apply (X17_quota_already_met one_per_query dedup_example_input 3 false
           (numbered_words 5)).
  - repeat constructor; by eexists.
  - cbn. lia.
Defined.

(** X18. [scrape] outside the [with] block. Without a driver, below the
    quota and with a word left, [scrape] draws one word and ends with
    [ValueError] ("Driver is not initialized") before anything is loaded:
    the word is gone from the list, and nothing else has changed. *)
Theorem X18_scrape_without_driver (web : Web) (st : State) (query : Query)
    (rest : list Query) :
  driver st = false →
  dataset_length st < max_articles st →
  words st = rest ++ [query] →
  scrape web st
  = (Raise ValueError, with_events [EvPop query] (set_words rest st)).
Proof.
  intros Hd Hq Hw. apply pop_Some in Hw.
  rewrite scrape_run, scrape_rounds_round.
  rewrite (proj2 (Z.ltb_lt _ _) Hq), round_head_run, Z.sub_diag, Hw.
  cbn zeta iota. change (0 >? 25) with false. cbn iota.
  rewrite scrape_retry_round. unfold _scrape.
  rewrite bind_run, _get_article_urls_run. cbn. by rewrite Hd.
Qed.

Lemma X18_scrape_without_driver_witness :
  scrape one_per_query (mkState false false false 10 0 ∅ ([] ++ [py "ir"]) None [])
  = (Raise ValueError,
     with_events [EvPop (py "ir")]
       (set_words []
          (mkState false false false 10 0 ∅ ([] ++ [py "ir"]) None []))).
Proof.
  apply (X18_scrape_without_driver one_per_query
           (mkState false false false 10 0 ∅ ([] ++ [py "ir"]) None [])
           (py "ir") []).
  - done.
  - cbn. lia.
  - done.
Defined.

(** ** Stopping and starting again *)

Lemma scrape_consistent web st :
  consistent st → consistent (scrape web st).2.
Proof.
  intros (Hlen & Hseen & Hurls).
  destruct (adv_scrape web st) as [new Hadv].
  destruct (polite_spec _ _ _ (adv_seen _ _ _ Hadv)) as (Hnew & Hs & _ & _).
  split; [|split].
  - rewrite (adv_length _ _ _ Hadv), (adv_file _ _ _ Hadv), length_app. lia.
  - rewrite Hs, (adv_file _ _ _ Hadv), urls_of_app, list_to_set_app_L.
    by rewrite Hseen.
  - rewrite (adv_file _ _ _ Hadv). by apply Forall_app.
Qed.

Lemma init_consistent st max dbg pool :
  consistent st →
  ∃ st0, __init__ (dataset_file st) max dbg pool = (Ok tt, st0)
    ∧ dataset_length st0 = dataset_length st
    ∧ seen_urls st0 = seen_urls st
    ∧ dataset_file st0 = dataset_file st
    ∧ words st0 = pool.
Proof.
  intros (Hlen & Hseen & Hurls). rewrite init_run.
  unfold _get_dataset_info. rewrite bind_run.
  cbn [get_state fresh dataset_file].
  fold (fresh (dataset_file st) max dbg).
  unfold records_of in *.
  destruct (dataset_file st) as [records|] eqn:Hfile; cbn [default] in *.
  - destruct (recovery_loop records (fresh (Some records) max dbg) Hurls)
      as (st1 & -> & Hl & Hs & Hf & _).
    eexists. split; [done|]. cbn in *. rewrite Hl, Hs, Hf, Hlen, Hseen.
    split; [lia|]. split; [|done]. by rewrite (right_id_L ∅ (∪)).
  - eexists. split; [done|]. cbn in *. by rewrite Hlen, Hseen.
Qed.

(** X19. Stopping and starting again. From a scraper whose count and seen
    set agree with its file, however [scrape] ends (returned, word list
    empty, error status), a new [Scraper] constructed over the file that
    the crawl left starts with exactly the count and the seen set that the
    crawl ended with: nothing that was written is lost or counted
    twice. *)
Theorem X19_resume_round_trip (web : Web) (st : State) (max : Z) (dbg : bool)
    (pool : list Query) :
  consistent st →
  let st' := (scrape web st).2 in
  ∃ st0, __init__ (dataset_file st') max dbg pool = (Ok tt, st0)
    ∧ dataset_length st0 = dataset_length st'
    ∧ seen_urls st0 = seen_urls st'
    ∧ dataset_file st0 = dataset_file st'
    ∧ words st0 = pool.
Proof.
  intros Hc. cbn zeta. apply init_consistent. by apply scrape_consistent.
Qed.

Lemma X19_resume_round_trip_witness :
  let st' := (scrape one_per_query (entered 3 false (numbered_words 5))).2 in
  ∃ st0, __init__ (dataset_file st') 10 false (numbered_words 7) = (Ok tt, st0)
    ∧ dataset_length st0 = dataset_length st'
    ∧ seen_urls st0 = seen_urls st'
    ∧ dataset_file st0 = dataset_file st'
    ∧ words st0 = numbered_words 7.
Proof.
  apply (X19_resume_round_trip one_per_query
           (entered 3 false (numbered_words 5)) 10 false (numbered_words 7)).
  split; [done|]. split; [done|]. constructor.
Defined.

(** ** One query *)

Lemma for_each_seen web (urls : list Url) st :
  Forall (λ u, u ∈ seen_urls st) urls →
  for_each urls (scrape_article web) st = (Ok tt, st).
Proof.
  induction 1 as [|u urls Hu _ IH]; [done|].
  rewrite for_each_cons, bind_run, scrape_article_run.
  by rewrite bool_decide_eq_true_2.
Qed.

(** X20. What counts as a query without results. With a driver, [_scrape]
    returns [False] exactly when the search page lists no article link;
    the page is then all that happened. A page whose articles have all
    been seen before is not such a query: [_scrape] returns [True] without
    requesting an article, so [scrape] goes on to the next word without a
    long sleep. *)
Theorem X20_query_without_results (web : Web) (query : Query) (st : State) :
  driver st = true →
  (listed_for web query st = [] →
     _scrape web query st = (Ok false, searched_state web query st))
  ∧ (listed_for web query st ≠ [] →
     Forall (λ u, u ∈ seen_urls st) (listed_for web query st) →
     _scrape web query st = (Ok true, searched_state web query st))
  ∧ (∀ st', _scrape web query st = (Ok false, st') →
     listed_for web query st = [] ∧ st' = searched_state web query st).
Proof.
  intros Hd. unfold _scrape, listed_for, searched_state.
  rewrite bind_run, _get_article_urls_run, Hd.
  destruct (article_url_of web <$> _) as [|u urls] eqn:Hl.
  - split; [done|]. split; [done|]. by intros st' [= <-].
  - split; [done|]. split.
    + intros _ Hseen. rewrite bind_run, for_each_seen; done.
    + intros st'. rewrite bind_run.
      by destruct (for_each _ _ _) as [[[]|e] st2].
Qed.

Lemma X20_query_without_results_witness :
  let query := py "ir" in
  let st := entered 3 false [] in
  let st_seen := (_scrape one_per_query query st).2 in
  _scrape empty_site query st
  = (Ok false, searched_state empty_site query st)
  ∧ _scrape one_per_query query st_seen
    = (Ok true, searched_state one_per_query query st_seen)
  ∧ (listed_for empty_site query st = []
     ∧ (_scrape empty_site query st).2 = searched_state empty_site query st).
Proof.
  intros query st st_seen. split; [|split].
  - apply (proj1 (X20_query_without_results empty_site query st eq_refl)).
    by vm_compute.
  - apply (proj1 (proj2 (X20_query_without_results one_per_query query st_seen
                           eq_refl))).
    + by vm_compute.
    + by repeat constructor.
  - apply (proj2 (proj2 (X20_query_without_results empty_site query st
                           eq_refl))).
    by vm_compute.
Defined.

(** ** Words drawn and pages searched *)

Lemma drawn_calm evs :
  Forall calm evs → monitor drawn_step None evs = Some None.
Proof.
  induction 1 as [|ev evs Hev _ IH]; [done|]. cbn. by destruct ev.
Qed.

#[export] Instance Calm_sequential : Sequential Calm.
Proof.
  split.
  - intros st. exists []. by rewrite app_nil_r.
  - intros st st1 o st2 (a & Ha & Hca) (b & Hb & Hcb).
    exists (a ++ b). rewrite Hb, Ha, app_assoc. split; [done|].
    by apply Forall_app.
Qed.

Lemma calm_scrape_article web u : sat Calm (scrape_article web u).
Proof.
  intros st. rewrite scrape_article_run.
  destruct (bool_decide _); [apply seq_refl|].
  destruct (is_http_error _).
  { eexists. split; [done|]. by repeat constructor. }
  destruct (sample_of _ _) as [sample|].
  - eexists. split; [cbn; by rewrite <- app_assoc|].
    unfold save_events. cbn.
    destruct (dataset_file st), (_ =? 0); by repeat constructor.
  - eexists. split; [done|]. by repeat constructor.
Qed.

Lemma search_events_drawn web query st :
  monitor drawn_step (Some query) (search_events web query st) = Some None.
Proof.
  unfold search_events. cbn. rewrite bool_decide_eq_true_2 by done.
  by destruct (cookie_button_clicked st).
Qed.

Section Drawn.
Context (web : Web).

Lemma _scrape_drawn query st :
  driver st = true →
  ∃ new, trace (_scrape web query st).2 = trace st ++ new
    ∧ monitor drawn_step (Some query) new = Some None
    ∧ driver (_scrape web query st).2 = true.
Proof.
  intros Hd.
  destruct (adv__scrape web query st) as [new' Hadv].
  pose proof (adv_driver _ _ _ Hadv) as Hd'. rewrite Hd in Hd'.
  clear new' Hadv. revert Hd'.
  unfold _scrape. rewrite bind_run, _get_article_urls_run, Hd.
  destruct (article_url_of web <$> _) as [|u urls].
  { intros _. eexists. split; [done|]. split; [|done].
    apply search_events_drawn. }
  rewrite bind_run.
  pose proof (sat_for_each Calm (u :: urls) (scrape_article web)
                (calm_scrape_article web)
                (set_cookie_button_clicked true
                   (with_events (search_events web query st) st)))
    as (new & Hnew & Hcalm).
  destruct (for_each _ _ _) as [[[]|e] st2]; cbn in *; intros Hd';
    (exists (search_events web query st ++ new);
     rewrite Hnew, app_assoc; split; [done|]; split; [|done];
     by rewrite monitor_app, search_events_drawn, drawn_calm).
Qed.

Lemma retry_drawn query st :
  driver st = true →
  ∃ new, trace (scrape_retry web query st).2 = trace st ++ new
    ∧ monitor drawn_step (Some query) new = Some None
    ∧ driver (scrape_retry web query st).2 = true.
Proof.
  funelim (scrape_retry web query st); funelim_tidy; clear Heqcall;
    intros Hd;
    destruct (_scrape_drawn query st Hd) as (a & Ha & Hma & Hda);
    rewrite H1 in Ha, Hda; cbn [fst snd] in *.
  - by exists a.
  - by exists a.
  - rewrite retry_pop_run in H2. cbn zeta in H2.
    destruct (pop (words st1)) as [[q rest]|]; [|done].
    injection H2 as <- <-.
    destruct H as (b & Hb & Hmb & Hdb); [done|].
    eexists. split; [|split; [|exact Hdb]].
    + rewrite Hb. cbn. rewrite Ha, <- !app_assoc. done.
    + rewrite monitor_app, Hma. exact Hmb.
  - rewrite retry_pop_run in H2. cbn zeta in H2.
    destruct (pop (words st1)) as [[q rest]|]; [done|].
    injection H2 as <- <-.
    eexists. split; [|split; [|done]].
    + cbn. by rewrite Ha, <- app_assoc.
    + by rewrite monitor_app, Hma.
Qed.

Lemma rounds_drawn track st :
  driver st = true →
  ∃ new, trace (scrape_rounds web track st).2 = trace st ++ new
    ∧ monitor drawn_step None new = Some None.
Proof.
  funelim (scrape_rounds web track st); funelim_tidy; clear Heqcall;
    intros Hd.
  - exists []. by rewrite app_nil_r.
  - rewrite round_head_run in H1. cbn zeta in H1.
    destruct (pop (words st)) as [[q rest]|]; [done|].
    injection H1 as <- <-. eexists. split; [done|].
    by destruct (_ >? 25).
  - rewrite round_head_run in H1. cbn zeta in H1.
    destruct (pop (words st)) as [[q rest]|]; [|done].
    injection H1 as <- <- <-.
    set (evs := if _ >? 25 then _ else _) in *.
    destruct (retry_drawn q (with_events (evs ++ [EvPop q]) (set_words rest st)))
      as (a & Ha & Hma & Hda); [done|].
    rewrite H2 in Ha, Hda. cbn [fst snd] in *.
    destruct H as (b & Hb & Hmb); [done|].
    exists ((evs ++ [EvPop q]) ++ a ++ b). split.
    + rewrite Hb, Ha. cbn. by rewrite <- !app_assoc.
    + assert (monitor drawn_step None evs = Some None) as Hevs.
      { subst evs. by destruct (_ >? 25). }
      rewrite (monitor_app _ _ (evs ++ [EvPop q])), (monitor_app _ _ evs), Hevs.
      cbn [monitor drawn_step]. by rewrite monitor_app, Hma.
  - rewrite round_head_run in H1. cbn zeta in H1.
    destruct (pop (words st)) as [[q rest]|]; [|done].
    injection H1 as <- <- <-.
    set (evs := if _ >? 25 then _ else _) in *.
    destruct (retry_drawn q (with_events (evs ++ [EvPop q]) (set_words rest st)))
      as (a & Ha & Hma & Hda); [done|].
    rewrite H2 in Ha. cbn [fst snd] in *.
    exists ((evs ++ [EvPop q]) ++ a). split.
    + rewrite Ha. cbn. by rewrite <- !app_assoc.
    + assert (monitor drawn_step None evs = Some None) as Hevs.
      { subst evs. by destruct (_ >? 25). }
      rewrite (monitor_app _ _ (evs ++ [EvPop q])), (monitor_app _ _ evs), Hevs.
      cbn [monitor drawn_step]. exact Hma.
Qed.

End Drawn.

Lemma drawn_pop_search pre query post :
  monitor drawn_step None (pre ++ EvPop query :: post) = Some None →
  ∃ post', post = EvDriverGet query :: post'.
Proof.
  intros Hm. rewrite monitor_app in Hm.
  destruct (monitor drawn_step None pre) as [[q|]|]; [done| |done].
  cbn in Hm. destruct post as [|ev post]; [done|].
  exists post. destruct ev; try done. cbn in Hm.
  destruct (bool_decide _) eqn:Hq; [|done].
  by apply bool_decide_eq_true in Hq as ->.
Qed.

Lemma drawn_pending pre query :
  monitor drawn_step None pre = Some (Some query) →
  ∃ pre', pre = pre' ++ [EvPop query].
Proof.
  destruct pre as [|ev pre _] using rev_ind; [done|].
  rewrite monitor_app.
  destruct (monitor drawn_step None pre) as [[q|]|]; [| |done].
  - cbn. destruct ev; try done. by destruct (bool_decide _).
  - cbn. destruct ev; try done. intros [= ->]. by exists pre.
Qed.

Lemma drawn_search_pop pre query post :
  is_Some (monitor drawn_step None (pre ++ EvDriverGet query :: post)) →
  ∃ pre', pre = pre' ++ [EvPop query].
Proof.
  intros [s Hm]. rewrite monitor_app in Hm.
  destruct (monitor drawn_step None pre) as [[q|]|] eqn:Hpre; [|done|done].
  cbn in Hm. destruct (bool_decide _) eqn:Hq; [|done].
  apply bool_decide_eq_true in Hq as ->. by apply drawn_pending.
Qed.

Lemma drawn_lists pending new :
  monitor drawn_step pending new = Some None →
  searched new = option_list pending ++ popped new.
Proof.
  revert pending. induction new as [|ev new IH]; intros pending.
  - by intros [= ->].
  - unfold searched, popped in *. rewrite !omap_cons_match. cbn [monitor].
    destruct pending as [q|], ev; cbn [drawn_step]; try done;
      try (intros Hm; by rewrite (IH _ Hm)).
    destruct (bool_decide _) eqn:Hq; [|done].
    apply bool_decide_eq_true in Hq as ->.
    intros Hm. by rewrite (IH _ Hm).
Qed.

(** X21. Words and searches. Inside the [with] block, however [scrape]
    ends, every word drawn from the list is searched at once (the event
    after a [pop] is the load of the search page for that word) and
    nothing else is searched (the event before the load of a search page
    is the [pop] of its word): the search pages loaded are, in order, for
    exactly the words drawn, each once. *)
Theorem X21_drawn_words_searched (web : Web) (st : State) :
  driver st = true →
  ∃ new, trace (scrape web st).2 = trace st ++ new
    ∧ (∀ pre query post, new = pre ++ EvPop query :: post →
         ∃ post', post = EvDriverGet query :: post')
    ∧ (∀ pre query post, new = pre ++ EvDriverGet query :: post →
         ∃ pre', pre = pre' ++ [EvPop query])
    ∧ searched new = popped new.
Proof.
  intros Hd.
  assert (∃ new, trace (scrape web st).2 = trace st ++ new
                 ∧ monitor drawn_step None new = Some None)
    as (new & Htr & Hm).
  { rewrite scrape_run.
    destruct (rounds_drawn web (dataset_length st) st Hd) as (new & Hn & Hm).
    destruct (scrape_rounds _ _ _) as [[[]|e] st1]; cbn [fst snd] in *.
    - eexists. split; [cbn; by rewrite Hn, <- app_assoc|].
      by rewrite monitor_app, Hm.
    - by exists new. }
  exists new. split; [done|]. split; [|split].
  - intros pre query post ->. by eapply drawn_pop_search.
  - intros pre query post ->. eapply drawn_search_pop. by rewrite Hm.
  - by rewrite (drawn_lists _ _ Hm).
Qed.

Lemma X21_drawn_words_searched_witness :
  ∃ new, trace (scrape one_per_query (entered 2 false (numbered_words 3))).2
         = trace (entered 2 false (numbered_words 3)) ++ new
    ∧ (∀ pre query post, new = pre ++ EvPop query :: post →
         ∃ post', post = EvDriverGet query :: post')
    ∧ (∀ pre query post, new = pre ++ EvDriverGet query :: post →
         ∃ pre', pre = pre' ++ [EvPop query])
    ∧ searched new = popped new.
Proof.
  apply (X21_drawn_words_searched one_per_query
           (entered 2 false (numbered_words 3))).
  done.
Defined.

(** ** A site whose articles the selectors do not fit *)

#[export] Instance Idle_sequential : Sequential Idle.
Proof.
  split.
  - intros st. repeat split. exists []. by rewrite app_nil_r.
  - intros st st1 o st2 (_ & Hl & Hm & Hw & Hd & Hf & Hs & a & Ha & Hca)
      (-> & Hl' & Hm' & Hw' & Hd' & Hf' & Hs' & b & Hb & Hcb).
    split; [done|]. split; [congruence|]. split; [congruence|].
    split; [congruence|]. split; [congruence|]. split; [congruence|].
    split; [congruence|].
    destruct Hca as [Hca Hpa], Hcb as [Hcb Hpb].
    exists (a ++ b). rewrite Hb, Ha, app_assoc. split; [done|].
    split; [by apply Forall_app|]. by rewrite popped_app, Hpa, Hpb.
Qed.

Section Barren.
Context (web : Web) (Hweb : barren web).

Lemma idle_scrape_article u : sat Idle (scrape_article web u).
Proof.
  intros st. rewrite scrape_article_run.
  destruct (bool_decide _); [apply seq_refl|].
  unfold answer. rewrite (barren_status web Hweb), (barren_page web Hweb).
  repeat split. eexists. split; [done|]. split; [|done].
  by repeat constructor.
Qed.

Lemma idle__scrape query st :
  driver st = true →
  (_scrape web query st).1 = Ok true ∧ Idle st None (_scrape web query st).2.
Proof.
  intros Hd. unfold _scrape. rewrite bind_run, _get_article_urls_run, Hd.
  destruct (h3_links web _ query) as [|link links] eqn:Hl.
  { by apply (barren_links web Hweb) in Hl. }
  rewrite fmap_cons, bind_run.
  pose proof (sat_for_each Idle (article_url_of web link
                                 :: (article_url_of web <$> links))
                (scrape_article web) idle_scrape_article
                (set_cookie_button_clicked true
                   (with_events (search_events web query st) st))) as Hfor.
  destruct (for_each _ _ _) as [[[]|e] st2]; cbn [fst snd outcome] in *;
    [|by destruct Hfor].
  split; [done|]. eapply seq_trans; [|exact Hfor].
  repeat split. eexists. split; [done|]. unfold search_events.
  destruct (cookie_button_clicked st); cbn;
    try destruct (cookie_button web _); split; by repeat constructor.
Qed.

Lemma rounds_barren pool :
  ∀ st track,
    words st = pool → driver st = true →
    dataset_length st < max_articles st →
    dataset_length st - track ≤ 25 →
    ∃ st' new, scrape_rounds web track st = (Raise IndexError, st')
      ∧ trace st' = trace st ++ new
      ∧ Forall fruitless new
      ∧ popped new = reverse pool
      ∧ words st' = []
      ∧ dataset_length st' = dataset_length st
      ∧ dataset_file st' = dataset_file st
      ∧ seen_urls st' = seen_urls st.
Proof.
  induction pool as [|q rest IH] using rev_ind;
    intros st track Hw Hd Hq Ht; rewrite scrape_rounds_round;
    rewrite (proj2 (Z.ltb_lt _ _) Hq), round_head_run; cbn zeta;
    assert (dataset_length st - track >? 25 = false) as -> by lia.
  - rewrite (proj2 (pop_None _) Hw), with_events_nil.
    exists st, []. rewrite app_nil_r. by repeat split.
  - rewrite (proj2 (pop_Some _ _ _) Hw), scrape_retry_round.
    set (st1 := with_events _ (set_words rest st)).
    destruct (idle__scrape q st1) as [Hr Hidle]; [done|].
    destruct (_scrape web q st1) as [r st2]. cbn [fst snd] in *. subst r.
    destruct Hidle as (_ & Hl & Hm & Hw2 & Hd2 & Hf & Hs & a & Ha & Hfa & Hpa).
    destruct (IH st2 track) as (st' & b & Hrun & Hb & Hfb & Hpb & Hrest);
      [done|by rewrite Hd2|rewrite Hl, Hm; done|by rewrite Hl|].
    exists st', ([EvPop q] ++ a ++ b). split; [done|]. split.
    { rewrite Hb, Ha. cbn. by rewrite <- !app_assoc. }
    split.
    { apply Forall_app. split; [by repeat constructor|by apply Forall_app]. }
    split.
    { rewrite !popped_app, Hpa, Hpb, reverse_app. done. }
    destruct Hrest as (Hw' & Hl' & Hf' & Hs').
    split; [done|]. split; [by rewrite Hl', Hl|].
    split; [by rewrite Hf', Hf|by rewrite Hs', Hs].
Qed.

End Barren.

Lemma fruitless_appended new : Forall fruitless new → appended new = [].
Proof.
  induction 1 as [|ev new Hev _ IH]; [done|].
  unfold appended in *. rewrite omap_cons_match. by destruct ev.
Qed.

Lemma fruitless_announced new : Forall fruitless new → announced new = [].
Proof.
  induction 1 as [|ev new Hev _ IH]; [done|].
  unfold announced in *. rewrite omap_cons_match.
  by destruct ev as [| | | | | | | |[]].
Qed.

(** X22. A site whose articles the selectors do not fit. When every
    search page lists something but no article page has both a text and a
    summary where [_get_text] and [_get_summary] look, a crawl inside the
    [with] block that starts below the quota writes nothing and never
    takes a long sleep: every such query counts as a success, so [scrape]
    goes through the whole word list, last word first, and ends with
    [IndexError] from the empty list, with the count and the file as they
    were. *)
Theorem X22_selectors_find_nothing (web : Web) (st : State) :
  barren web → driver st = true → dataset_length st < max_articles st →
  ∃ st' new, scrape web st = (Raise IndexError, st')
    ∧ trace st' = trace st ++ new
    ∧ popped new = reverse (words st)
    ∧ appended new = []
    ∧ announced new = []
    ∧ words st' = []
    ∧ dataset_length st' = dataset_length st
    ∧ dataset_file st' = dataset_file st
    ∧ seen_urls st' = seen_urls st.
Proof.
  intros Hweb Hd Hq.
  destruct (rounds_barren web Hweb (words st) st (dataset_length st))
    as (st' & new & Hrun & Htr & Hf & Hp & Hrest); [done..|lia|].
  exists st', new. rewrite scrape_run, Hrun.
  split; [done|]. split; [done|]. split; [done|].
  split; [by apply fruitless_appended|].
  split; [by apply fruitless_announced|done].
Qed.

Lemma X22_selectors_find_nothing_witness :
  ∃ st' new,
    scrape no_summary_site (entered 3 false (numbered_words 4))
    = (Raise IndexError, st')
    ∧ trace st' = trace (entered 3 false (numbered_words 4)) ++ new
    ∧ popped new = reverse (words (entered 3 false (numbered_words 4)))
    ∧ appended new = []
    ∧ announced new = []
    ∧ words st' = []
    ∧ dataset_length st' = dataset_length (entered 3 false (numbered_words 4))
    ∧ dataset_file st' = dataset_file (entered 3 false (numbered_words 4))
    ∧ seen_urls st' = seen_urls (entered 3 false (numbered_words 4)).
Proof.
  apply (X22_selectors_find_nothing no_summary_site
           (entered 3 false (numbered_words 4))).
  - by split.
  - done.
  - cbn. lia.
Defined.

(** ** From the crawl to the hub *)

Section CrawlThenBuild.
Import DatasetBuilder.

Lemma urls_of_sublist (l1 l2 : list Sample) :
  l1 `sublist_of` l2 → urls_of l1 `sublist_of` urls_of l2.
Proof.
  induction 1 as [|s l1 l2 _ IH|s l1 l2 _ IH]; [done| |];
    unfold urls_of in *; rewrite ?omap_cons_match.
  - destruct (s !! k_url); [by apply sublist_skip|done].
  - destruct (s !! k_url); [by apply sublist_cons|done].
Qed.

(** The file that a crawl from an entered scraper without file leaves:
    records as [_get_article_data] builds them, with different urls. *)
Lemma crawl_file web max dbg pool :
  let st' := (scrape web (entered max dbg pool)).2 in
  Forall valid_record (records_of st') ∧ NoDup (urls_of (records_of st')).
Proof.
  cbn zeta.
  destruct (atomic_scrape web _ (answered_atomic web) (entered max dbg pool))
    as (new & Htr & Hv & _).
  destruct (adv_scrape web (entered max dbg pool)) as [new' Hadv].
  assert (new' = new) as -> by apply (advances_events _ _ _ _ Hadv Htr).
  destruct (polite_spec _ _ _ (adv_seen _ _ _ Hadv)) as (_ & _ & Hnd & _).
  by rewrite (adv_file _ _ _ Hadv).
Qed.

(** X23. From the crawl to the hub. Take the file that the script leaves
    after a crawl that started without one, and hand it to
    [build_dataset] with [push_to_hub]. What reaches the hub is the one
    list of the deduplicated records, and each of them has a title that is
    not only whitespace, a summary and a text that are not empty, a url
    different from the url of every other one and a trimmed title
    different from that of every other one. *)
Theorem X23_crawl_then_build (web : Web) (hub : Builder.Hub) (max : Z)
    (dbg : bool) (pool : list Query) (records : list Sample) :
  dataset_file (main web None max dbg pool).2 = Some records →
  let kept := _ignore_duplicates records in
  Builder.pushed (Builder.build_dataset hub (Some records) true).2 = [kept]
  ∧ Forall (λ sample,
      ∃ u title summary text,
        sample = mk_sample u title summary text
        ∧ strip title ≠ [] ∧ summary ≠ [] ∧ text ≠ []) kept
  ∧ NoDup (urls_of kept)
  ∧ NoDup (title_of <$> kept).
Proof.
  intros Hfile. cbn zeta.
  rewrite main_entered in Hfile. cbn [snd] in Hfile.
  assert (records_of (scrape web (entered max dbg pool)).2 = records) as Hrec.
  { revert Hfile. unfold __exit__, records_of. rewrite bind_run.
    cbn [get_state].
    destruct (driver _); cbn; by intros ->. }
  destruct (crawl_file web max dbg pool) as [Hv Hnd]. cbn zeta in Hv, Hnd.
  rewrite Hrec in Hv, Hnd.
  pose proof (ignore_loop_sublist ∅ records) as Hsub.
  fold (_ignore_duplicates records) in Hsub.
  split; [done|]. split; [|split].
  - apply Forall_forall. intros s Hs.
    pose proof (proj1 (Forall_forall _ _) Hv s (elem_of_sublist _ _ _ Hs Hsub))
      as (u & title & summary & text & -> & Hsum & Htext).
    exists u, title, summary, text. split; [done|]. split; [|done].
    assert (title_of (mk_sample u title summary text) ≠ []) as Ht.
    { assert (title_of (mk_sample u title summary text)
              ∈ title_of <$> _ignore_duplicates records) as Hin
        by (by apply list_elem_of_fmap_2).
      unfold _ignore_duplicates in Hin. rewrite ignore_loop_titles in Hin.
      tauto. }
    rewrite (title_of_lookup _ title) in Ht; [done|by vm_compute].
  - eapply sublist_NoDup; [exact Hnd|by apply urls_of_sublist].
  - apply ignore_loop_NoDup.
Qed.

Lemma X23_crawl_then_build_witness :
  let records :=
    records_of (main one_per_query None 2 false (numbered_words 3)).2 in
  let kept := _ignore_duplicates records in
  Builder.pushed
    (Builder.build_dataset (Builder.mkHub (λ _, None)) (Some records) true).2
  = [kept]
  ∧ Forall (λ sample,
      ∃ u title summary text,
        sample = mk_sample u title summary text
        ∧ strip title ≠ [] ∧ summary ≠ [] ∧ text ≠ []) kept
  ∧ NoDup (urls_of kept)
  ∧ NoDup (title_of <$> kept).
Proof.
  intros records.
  apply (X23_crawl_then_build one_per_query (Builder.mkHub (λ _, None))
           2 false (numbered_words 3) records).
  by vm_compute.
Defined.

End CrawlThenBuild.

(** ** Titles of whitespace *)

Section BlankTitles.
Import DatasetBuilder.

Lemma lstrip_empty_iff s : lstrip s = [] ↔ blank s.
Proof.
  induction s as [|c s IH]; cbn.
  - split; [constructor|done].
  - destruct (isspace c) eqn:Hc.
    + rewrite IH. split; [by constructor|by intros [_ ?]%Forall_cons_1].
    + split; [done|]. intros [Hc' _]%Forall_cons_1. congruence.
Qed.

Lemma blank_rev s : blank (rev s) ↔ blank s.
Proof.
  unfold blank. rewrite rev_alt. apply (Forall_reverse _ s).
Qed.

Lemma lstrip_idem s : lstrip (lstrip s) = lstrip s.
Proof.
  induction s as [|c s IH]; [done|]. cbn.
  destruct (isspace c) eqn:Hc; [done|]. cbn. by rewrite Hc.
Qed.

Lemma strip_empty_iff s : strip s = [] ↔ blank s.
Proof.
  unfold strip, rstrip. split.
  - intros H. apply (f_equal (@rev N)) in H.
    rewrite rev_involutive in H. cbn in H.
    pose proof (proj1 (blank_rev _) (proj1 (lstrip_empty_iff _) H)) as Hb.
    apply (proj2 (lstrip_empty_iff _)) in Hb. rewrite lstrip_idem in Hb.
    by apply lstrip_empty_iff.
  - intros H. apply lstrip_empty_iff in H. by rewrite H.
Qed.

(** X24. Titles of whitespace. A sample is never kept by
    [_ignore_duplicates] when it has no ["title"] key or when its title
    consists of whitespace only (for [str.strip], as CPython decides
    whitespace), however different it is from the other samples; a sample
    alone in the list is kept exactly when it has a title with a character
    that is not whitespace. *)
Theorem X24_blank_title_dropped (samples : list Sample) (sample : Sample) :
((sample !! k_title = None
    ∨ ∃ title, sample !! k_title = Some title ∧ blank title) →
   sample ∉ _ignore_duplicates samples)
  ∧ (_ignore_duplicates [sample] = [sample]
     ↔ ∃ title, sample !! k_title = Some title ∧ ¬ blank title).
Proof.
  assert (title_of sample = []
          ↔ sample !! k_title = None
            ∨ ∃ title, sample !! k_title = Some title ∧ blank title) as Hempty.
  { destruct (sample !! k_title) as [title|] eqn:Hk.
    - rewrite (title_of_lookup _ _ Hk), strip_empty_iff. split.
      + intros Hb. right. by exists title.
      + by intros [|(t & [= <-] & Hb)].
    - rewrite (title_of_missing _ Hk). split; [by left|done]. }
  split.
  - intros Hb%Hempty Hin.
    assert (title_of sample ∈ title_of <$> _ignore_duplicates samples) as Ht
      by (by apply list_elem_of_fmap_2).
    unfold _ignore_duplicates in Ht. rewrite ignore_loop_titles in Ht. tauto.
  - unfold _ignore_duplicates. rewrite ignore_loop_cons.
    rewrite bool_decide_eq_true_2 by apply not_elem_of_empty.
    rewrite andb_true_r. cbn [ignore_loop].
    destruct (truthy (title_of sample)) eqn:Ht.
    + apply truthy_nonempty in Ht. split; [intros _|done].
      destruct (sample !! k_title) as [title|] eqn:Hk.
      * exists title. split; [done|]. intros Hb. apply Ht, Hempty.
        right. by exists title.
      * destruct Ht. apply Hempty. by left.
    + split; [done|]. intros (title & Hk & Hnb).
      assert (title_of sample = []) as He
        by (destruct (title_of sample); [done|discriminate]).
      apply Hempty in He as [He|(t & Ht' & Hb)]; [congruence|].
      rewrite Hk in Ht'. injection Ht' as <-. done.
Qed.

End BlankTitles.

(** ** A sample without a url *)

Lemma _save_sample_missing_url (sample : Sample) st :
  sample !! k_url = None →
  _save_sample sample st =
  (Raise (KeyError k_url),
   with_events (match dataset_file st with Some _ => [] | None => [EvTouch] end
                ++ [EvAppend sample])
     (set_dataset_file (Some (records_of st ++ [sample])) st)).
Proof.
  intros Hu.
  unfold _save_sample, getitem, when, with_events, records_of.
  rewrite Hu. mrun.
  destruct (dataset_file st) as [records|] eqn:Hf; mrun; setters;
    rewrite <- ?app_assoc; cbn; by rewrite ?Hf.
Qed.

(** X25. [_save_sample] with a sample that has no ["url"]. The record is
    written before the url is read: the sample is appended to the file
    (which is created if it was not there), then [KeyError: 'url'] is
    raised, with the count and the seen set as they were. The file is
    left with a record that the next constructor cannot read: over it
    [Scraper(...)] ends with [KeyError: 'url'] too. *)
Theorem X25_save_sample_without_url (sample : Sample) (st : State) (max : Z)
    (dbg : bool) (pool : list Query) :
  sample !! k_url = None →
  Forall has_url (records_of st) →
  let run := _save_sample sample st in
  run.1 = Raise (KeyError k_url)
  ∧ dataset_file run.2 = Some (records_of st ++ [sample])
  ∧ appended (trace run.2) = appended (trace st) ++ [sample]
  ∧ dataset_length run.2 = dataset_length st
  ∧ seen_urls run.2 = seen_urls st
  ∧ (__init__ (dataset_file run.2) max dbg pool).1 = Raise (KeyError k_url).
Proof.
  intros Hu Hurls. cbn zeta. rewrite (_save_sample_missing_url _ _ Hu).
  cbn [fst snd]. split; [done|]. split; [done|]. split.
  { cbn. rewrite appended_app. f_equal.
    destruct (dataset_file st); cbn; unfold appended;
      by rewrite ?omap_cons_match. }
  split; [done|]. split; [done|]. cbn.
  destruct (recovery_stops (records_of st) sample []
              (fresh (Some (records_of st ++ [sample])) max dbg) Hurls Hu)
    as (st' & Hrun & _).
  rewrite init_run. unfold _get_dataset_info. rewrite bind_run.
  cbn [get_state fresh dataset_file].
  fold (fresh (Some (records_of st ++ [sample])) max dbg). by rewrite Hrun.
Qed.

Lemma X25_save_sample_without_url_witness :
  let run := _save_sample {[ k_title := py "Y" ]} (entered 3 false []) in
  run.1 = Raise (KeyError k_url)
  ∧ dataset_file run.2
    = Some (records_of (entered 3 false []) ++ [ {[ k_title := py "Y" ]} ])
  ∧ appended (trace run.2)
    = appended (trace (entered 3 false [])) ++ [ {[ k_title := py "Y" ]} ]
  ∧ dataset_length run.2 = dataset_length (entered 3 false [])
  ∧ seen_urls run.2 = seen_urls (entered 3 false [])
  ∧ (__init__ (dataset_file run.2) 3 false []).1 = Raise (KeyError k_url).
Proof.
  apply (X25_save_sample_without_url {[ k_title := py "Y" ]}
           (entered 3 false []) 3 false []).
  - by vm_compute.
  - constructor.
Defined.
